(** * UNO engine: cards, effects, deck and player contract

    A shallow embedding of [uno/engine/card.py], [uno/engine/deck.py] and
    [uno/player/player.py].  Python objects are records, [IntEnum]s are
    inductive types with their [value] function, Python integers are [Z],
    and a method that mutates [self] or raises is a computation in a small
    state-and-exception monad in which a raised exception keeps the state
    the object had when it was raised (Python does not roll back). *)

From Stdlib Require Import ZArith List Bool Lia Permutation Sorted.
From Stdlib Require String.
Import ListNotations String.StringSyntax.
Delimit Scope string_scope with string.
Local Open Scope Z_scope.

(** ** Exceptions and the method monad *)

Inductive exn : Type :=
| ValueError
| IndexError
| RecursionError
| KeyError
| AttributeError
| OverflowError.

Inductive outcome (A : Type) : Type :=
| Return (a : A)
| Raise (e : exn).
Arguments Return {A} a.
Arguments Raise {A} e.

(** A method on an object of type [S] producing an [A]. *)
Definition M (S A : Type) : Type := S -> outcome A * S.

Section Monad.
Context {S : Type}.

Definition ret {A} (a : A) : M S A := fun s => (Return a, s).

Definition bind {A B} (m : M S A) (k : A -> M S B) : M S B :=
  fun s =>
    match m s with
    | (Return a, s') => k a s'
    | (Raise e, s') => (Raise e, s')
    end.

Definition raise {A} (e : exn) : M S A := fun s => (Raise e, s).

Definition get : M S S := fun s => (Return s, s).

Definition put (s : S) : M S unit := fun _ => (Return tt, s).

Definition modify (f : S -> S) : M S unit := fun s => (Return tt, f s).

(** [if b: m] with no [else]. *)
Definition when (b : bool) (m : M S unit) : M S unit :=
  if b then m else ret tt.

(** [for x in items: body(x)]; an exception raised by a pass ends the
    loop. *)
Fixpoint for_in {A} (items : list A) (body : A -> M S unit) : M S unit :=
  match items with
  | [] => ret tt
  | x :: rest => bind (body x) (fun _ => for_in rest body)
  end.
End Monad.

Declare Scope method_scope.
Delimit Scope method_scope with method.
Notation "x <- m ;; k" := (bind m (fun x => k))
  (at level 61, m at next level, right associativity) : method_scope.
Notation "m ;; k" := (bind m (fun _ => k))
  (at level 61, right associativity) : method_scope.
Local Open Scope method_scope.

(** What the call returned (or raised), and the object afterwards. *)
Definition result {S A} (m : M S A) (s : S) : outcome A := fst (m s).
Definition after {S A} (m : M S A) (s : S) : S := snd (m s).

(** [range(lo, hi)] *)
Definition range (lo hi : nat) : list Z := map Z.of_nat (seq lo (hi - lo)).

(** ** The enumerations of [card.py] *)

Module CardColor.
Inductive t : Type := RED | BLUE | GREEN | YELLOW | WILD.

Definition value (c : t) : Z :=
  match c with
  | RED => 0 | BLUE => 1 | GREEN => 2 | YELLOW => 3 | WILD => 4
  end.

(** [==] on an [IntEnum] compares the integer values. *)
Definition eqb (a b : t) : bool := value a =? value b.

(** [bool(c)]: an [IntEnum] member is falsy when its value is [0]. *)
Definition truthy (c : t) : bool := negb (value c =? 0).
End CardColor.

Module CardLabel.
Inductive t : Type :=
| ZERO | ONE | TWO | THREE | FOUR | FIVE | SIX | SEVEN | EIGHT | NINE
| SKIP | REVERSE | DRAW_TWO | WILD | WILD_DRAW_FOUR.

Definition value (l : t) : Z :=
  match l with
  | ZERO => 0 | ONE => 1 | TWO => 2 | THREE => 3 | FOUR => 4
  | FIVE => 5 | SIX => 6 | SEVEN => 7 | EIGHT => 8 | NINE => 9
  | SKIP => 10 | REVERSE => 11 | DRAW_TWO => 12
  | WILD => 13 | WILD_DRAW_FOUR => 14
  end.

Definition eqb (a b : t) : bool := value a =? value b.

(** [CardLabel(v)]: the member of that value; [ValueError] when there is
    none. *)
Definition of_value (v : Z) : outcome t :=
  match v with
  | 0 => Return ZERO | 1 => Return ONE | 2 => Return TWO | 3 => Return THREE
  | 4 => Return FOUR | 5 => Return FIVE | 6 => Return SIX | 7 => Return SEVEN
  | 8 => Return EIGHT | 9 => Return NINE | 10 => Return SKIP
  | 11 => Return REVERSE | 12 => Return DRAW_TWO | 13 => Return WILD
  | 14 => Return WILD_DRAW_FOUR
  | _ => Raise ValueError
  end.
End CardLabel.

Module EffectState.
Inductive t : Type := NO_EFFECT | PENDING | APPLIED | RESOLVED.

Definition value (s : t) : Z :=
  match s with
  | NO_EFFECT => 0 | PENDING => 1 | APPLIED => 2 | RESOLVED => 3
  end.

Definition eqb (a b : t) : bool := value a =? value b.

(** The order of the states, as integers. *)
Definition le (a b : t) : Prop := value a <= value b.
End EffectState.

(** [x or y] where [x] is an [Optional[CardColor]]: [x] when it is truthy,
    [y] when [x] is [None] or a member whose value is [0]. *)
Definition color_or (x : option CardColor.t) (y : CardColor.t) : CardColor.t :=
  match x with
  | Some c => if CardColor.truthy c then c else y
  | None => y
  end.

(** [bool(x)] for an [Optional[CardColor]]. *)
Definition color_truthy (x : option CardColor.t) : bool :=
  match x with
  | Some c => CardColor.truthy c
  | None => false
  end.

(** ** [class CardEffect] *)

Module CardEffect.
Import EffectState.

Record t : Type := mk {
  _state : EffectState.t;
  _color_change : option CardColor.t;
  _draw_count : Z;
  _skip_count : Z;
  _reverse_direction : bool;
  _stackable : bool
}.

(** [__init__] *)
Definition init : t :=
  {| _state := NO_EFFECT; _color_change := None; _draw_count := 0;
     _skip_count := 0; _reverse_direction := false; _stackable := false |}.

(** Attribute stores [self._x = v]. *)
Definition store_state (v : EffectState.t) (e : t) : t :=
  mk v (_color_change e) (_draw_count e) (_skip_count e)
     (_reverse_direction e) (_stackable e).
Definition store_color_change (v : option CardColor.t) (e : t) : t :=
  mk (_state e) v (_draw_count e) (_skip_count e)
     (_reverse_direction e) (_stackable e).
Definition store_draw_count (v : Z) (e : t) : t :=
  mk (_state e) (_color_change e) v (_skip_count e)
     (_reverse_direction e) (_stackable e).
Definition store_skip_count (v : Z) (e : t) : t :=
  mk (_state e) (_color_change e) (_draw_count e) v
     (_reverse_direction e) (_stackable e).
Definition store_reverse_direction (v : bool) (e : t) : t :=
  mk (_state e) (_color_change e) (_draw_count e) (_skip_count e)
     v (_stackable e).
Definition store_stackable (v : bool) (e : t) : t :=
  mk (_state e) (_color_change e) (_draw_count e) (_skip_count e)
     (_reverse_direction e) v.

Definition Eff (A : Type) : Type := M t A.

(** *** State management *)

Definition set_pending : Eff unit :=
  self <- get ;;
  when (eqb (_state self) NO_EFFECT) (modify (store_state PENDING)).

Definition set_applied : Eff unit :=
  self <- get ;;
  when (eqb (_state self) PENDING) (modify (store_state APPLIED)).

Definition set_resolved : Eff unit :=
  self <- get ;;
  when (eqb (_state self) APPLIED) (modify (store_state RESOLVED)).

(** [reset_state] and [clear_effects] call each other without a base
    case.  [frames] is the number of stack frames the interpreter still
    allows; a call made with none left raises [RecursionError]. *)
Fixpoint reset_state (frames : nat) : Eff unit :=
  match frames with
  | O => raise RecursionError
  | S k =>
      modify (store_state NO_EFFECT) ;;
      clear_effects k
  end
with clear_effects (frames : nat) : Eff unit :=
  match frames with
  | O => raise RecursionError
  | S k =>
      modify (store_color_change None) ;;
      modify (store_draw_count 0) ;;
      modify (store_skip_count 0) ;;
      modify (store_reverse_direction false) ;;
      modify (store_stackable false) ;;
      reset_state k
  end.

Definition is_active : Eff bool :=
  self <- get ;;
  ret (eqb (_state self) PENDING || eqb (_state self) APPLIED).

Definition is_pending : Eff bool :=
  self <- get ;; ret (eqb (_state self) PENDING).

Definition is_applied : Eff bool :=
  self <- get ;; ret (eqb (_state self) APPLIED).

Definition is_resolved : Eff bool :=
  self <- get ;; ret (eqb (_state self) RESOLVED).

(** *** Property setters.  The arguments are typed, so the [isinstance]
    tests of the source always pass and are left out. *)

Definition set_color_change (color : option CardColor.t) : Eff unit :=
  match color with
  | Some c =>
      if CardColor.eqb c CardColor.WILD then raise ValueError
      else set_pending
  | None => ret tt
  end ;;
  modify (store_color_change color).

Definition set_draw_count (count : Z) : Eff unit :=
  if count <? 0 then raise ValueError
  else
    when (0 <? count) set_pending ;;
    modify (store_draw_count count).

Definition set_skip_count (count : Z) : Eff unit :=
  if count <? 0 then raise ValueError
  else
    when (0 <? count) set_pending ;;
    modify (store_skip_count count).

Definition set_reverse_direction (reverse : bool) : Eff unit :=
  when reverse set_pending ;;
  modify (store_reverse_direction reverse).

Definition set_stackable (stackable : bool) : Eff unit :=
  modify (store_stackable stackable).

(** *** Effect operations *)

Definition has_effects : Eff bool :=
  self <- get ;;
  ret (match _color_change self with Some _ => true | None => false end
       || (0 <? _draw_count self)
       || (0 <? _skip_count self)
       || _reverse_direction self).

(** The argument of [combine]: another object, or [self] itself
    ([a.combine(a)]), in which case every read of [other] sees the
    writes already made to [self]. *)
Inductive operand : Type :=
| Other (b : t)
| Self.

Definition deref (other : operand) : Eff t :=
  match other with
  | Other b => ret b
  | Self => get
  end.

Definition combine (other : operand) : Eff unit :=
  o <- deref other ;;
  when (negb (eqb (_state o) NO_EFFECT)) set_pending ;;
  o <- deref other ;;
  match _color_change o with
  | Some c => set_color_change (Some c)
  | None => ret tt
  end ;;
  self <- get ;; o <- deref other ;;
  set_draw_count (_draw_count self + _draw_count o) ;;
  self <- get ;; o <- deref other ;;
  set_skip_count (_skip_count self + _skip_count o) ;;
  o <- deref other ;;
  when (_reverse_direction o) (set_reverse_direction true) ;;
  o <- deref other ;;
  when (_stackable o) (set_stackable true).

Definition execute_draw : Eff Z :=
  applied <- is_applied ;;
  self <- get ;;
  if applied && (0 <? _draw_count self) then
    let drawn := _draw_count self in
    modify (store_draw_count 0) ;;
    ret drawn
  else ret 0.

Definition execute_skip : Eff Z :=
  applied <- is_applied ;;
  self <- get ;;
  if applied && (0 <? _skip_count self) then
    let skipped := _skip_count self in
    modify (store_skip_count 0) ;;
    ret skipped
  else ret 0.

(** The class invariant the setters maintain. *)
Definition wf (e : t) : Prop :=
  0 <= _draw_count e /\ 0 <= _skip_count e
  /\ _color_change e <> Some CardColor.WILD.
End CardEffect.


(** ** [class Card] *)

Module Card.
Record t : Type := mk {
  _color : CardColor.t;
  _label : CardLabel.t;
  _is_wild : bool
}.

Definition ACTION_CARDS : list CardLabel.t :=
  [CardLabel.SKIP; CardLabel.REVERSE; CardLabel.DRAW_TWO].
Definition WILD_CARDS : list CardLabel.t :=
  [CardLabel.WILD; CardLabel.WILD_DRAW_FOUR].

(** [label in labels] *)
Definition label_in (label : CardLabel.t) (labels : list CardLabel.t) : bool :=
  existsb (CardLabel.eqb label) labels.

Definition _is_number_card (label : CardLabel.t) : bool :=
  CardLabel.value label <=? 9.
Definition _is_action_card (label : CardLabel.t) : bool :=
  label_in label ACTION_CARDS.
Definition _is_wild_card (label : CardLabel.t) : bool :=
  label_in label WILD_CARDS.

Definition _validate_card (color : CardColor.t) (label : CardLabel.t)
  : outcome unit :=
  if label_in label WILD_CARDS && negb (CardColor.eqb color CardColor.WILD)
  then Raise ValueError
  else if negb (label_in label WILD_CARDS) && CardColor.eqb color CardColor.WILD
  then Raise ValueError
  else if negb (_is_number_card label) && negb (_is_action_card label)
          && negb (_is_wild_card label)
  then Raise ValueError
  else Return tt.

(** [__init__] *)
Definition init (color : CardColor.t) (label : CardLabel.t) : outcome t :=
  match _validate_card color label with
  | Raise e => Raise e
  | Return _ => Return (mk color label (label_in label WILD_CARDS))
  end.

(** A card some call of the constructor returned. *)
Definition constructed (c : t) : Prop :=
  exists color label, init color label = Return c.

Definition color (self : t) : CardColor.t := _color self.
Definition label (self : t) : CardLabel.t := _label self.
Definition is_wild (self : t) : bool := _is_wild self.
Definition is_action_card (self : t) : bool := label_in (_label self) ACTION_CARDS.
Definition is_number_card (self : t) : bool := _is_number_card (_label self).

Definition points (self : t) : Z :=
  if is_number_card self then CardLabel.value (_label self)
  else if is_action_card self then 20
  else if is_wild self then 50
  else 0.

Definition can_play_on (self other : t) (current_color : option CardColor.t)
  : bool :=
  if is_wild self then true
  else if CardColor.eqb (color self) (color_or current_color (color other))
  then true
  else if CardLabel.eqb (label self) (label other) && negb (is_wild other)
  then true
  else false.

(** The dictionary [play] returns. *)
Record effects : Type := mk_effects {
  color_change : option CardColor.t;
  draw_cards : Z;
  skip_turn : bool;
  reverse : bool
}.

Definition no_effects : effects :=
  {| color_change := None; draw_cards := 0; skip_turn := false;
     reverse := false |}.

Definition store_color_change (v : option CardColor.t) (d : effects) : effects :=
  mk_effects v (draw_cards d) (skip_turn d) (reverse d).
Definition store_draw_cards (v : Z) (d : effects) : effects :=
  mk_effects (color_change d) v (skip_turn d) (reverse d).
Definition store_skip_turn (v : bool) (d : effects) : effects :=
  mk_effects (color_change d) (draw_cards d) v (reverse d).
Definition store_reverse (v : bool) (d : effects) : effects :=
  mk_effects (color_change d) (draw_cards d) (skip_turn d) v.

(** [play] builds the dictionary in a local variable; the card itself is
    not touched, so the method is a computation on the dictionary. *)
Definition play (self : t) (new_color : option CardColor.t) : outcome effects :=
  result
    (match new_color with
     | Some c =>
         if is_wild self && color_truthy new_color then
           if CardColor.eqb c CardColor.WILD then raise ValueError
           else modify (store_color_change new_color)
         else ret tt
     | None => ret tt
     end ;;
     (if CardLabel.eqb (label self) CardLabel.DRAW_TWO
      then modify (store_draw_cards 2)
      else if CardLabel.eqb (label self) CardLabel.WILD_DRAW_FOUR
      then modify (store_draw_cards 4)
      else if CardLabel.eqb (label self) CardLabel.SKIP
      then modify (store_skip_turn true)
      else if CardLabel.eqb (label self) CardLabel.REVERSE
      then modify (store_reverse true)
      else ret tt) ;;
     effects <- get ;;
     ret effects)
    no_effects.

(** [__eq__] *)
Definition eqb (self other : t) : bool :=
  CardColor.eqb (color self) (color other)
  && CardLabel.eqb (label self) (label other).

(** [__lt__] *)
Definition ltb (self other : t) : bool :=
  if CardColor.eqb (color self) (color other)
  then CardLabel.value (label self) <? CardLabel.value (label other)
  else CardColor.value (color self) <? CardColor.value (color other).
End Card.

(** ** [class CardFactory] *)

Module CardFactory.
Definition create_number_card (color : CardColor.t) (number : Z)
  : outcome Card.t :=
  if negb ((0 <=? number) && (number <=? 9)) then Raise ValueError
  else
    match CardLabel.of_value number with
    | Return label => Card.init color label
    | Raise e => Raise e
    end.

Definition create_action_card (color : CardColor.t) (action : CardLabel.t)
  : outcome Card.t :=
  if negb (Card.label_in action Card.ACTION_CARDS) then Raise ValueError
  else Card.init color action.

Definition create_wild_card (wild_type : CardLabel.t) : outcome Card.t :=
  if negb (Card.label_in wild_type Card.WILD_CARDS) then Raise ValueError
  else Card.init CardColor.WILD wild_type.
End CardFactory.

(** ** [class Deck] *)

Module Deck.
(** The deque of cards, head first. *)
Record t : Type := mk { _cards : list Card.t }.

Definition DeckM (A : Type) : Type := M t A.

(** [len(self._cards)] *)
Definition len (self : t) : Z := Z.of_nat (length (_cards self)).

Definition is_empty : DeckM bool :=
  self <- get ;; ret (len self =? 0).

Definition size : DeckM Z :=
  self <- get ;; ret (len self).

(** [deque.popleft()] raises [IndexError] on an empty deque. *)
Definition popleft : DeckM Card.t :=
  self <- get ;;
  match _cards self with
  | [] => raise IndexError
  | c :: rest => put (mk rest) ;; ret c
  end.

(** [deque.appendleft(card)] *)
Definition appendleft (card : Card.t) : DeckM unit :=
  modify (fun self => mk (card :: _cards self)).

(** [deque.append(card)] *)
Definition append (card : Card.t) : DeckM unit :=
  modify (fun self => mk (_cards self ++ [card])).

(** [[self._cards.popleft() for _ in range(count)]] *)
Fixpoint popleft_each (count : nat) : DeckM (list Card.t) :=
  match count with
  | O => ret []
  | S k =>
      c <- popleft ;;
      rest <- popleft_each k ;;
      ret (c :: rest)
  end.

(** [draw] returns Python's [None] (here [None]) on an empty deck and a
    list (here [Some]) otherwise. *)
Definition draw (count : Z) : DeckM (option (list Card.t)) :=
  empty <- is_empty ;;
  if empty then ret None
  else
    self <- get ;;
    if count <? 0 then raise ValueError
    else if len self <? count then raise ValueError
    else
      drawn <- popleft_each (Z.to_nat count) ;;
      ret (Some drawn).

Definition add_card (card : Card.t) : DeckM unit := append card.

(** [deque.extend(cards)] *)
Definition add_cards (cards : list Card.t) : DeckM unit :=
  modify (fun self => mk (_cards self ++ cards)).

Definition add_to_top (card : Card.t) : DeckM unit := appendleft card.

(** [for card in cards: body(card)] *)
Fixpoint for_each (cards : list Card.t) (body : Card.t -> DeckM unit)
  : DeckM unit :=
  match cards with
  | [] => ret tt
  | card :: rest => body card ;; for_each rest body
  end.

Definition add_cards_to_top (cards : list Card.t) : DeckM unit :=
  for_each (rev cards) appendleft.

Definition peek (count : Z) : DeckM (list Card.t) :=
  self <- get ;;
  if count <? 0 then raise ValueError
  else if len self <? count then raise ValueError
  else ret (firstn (Z.to_nat count) (_cards self)).

Definition clear : DeckM unit := put (mk []).

(** [deque.extend(cards)] *)
Definition extend (cards : list Card.t) : DeckM unit :=
  modify (fun self => mk (_cards self ++ cards)).

Definition _ACTIONS : list CardLabel.t :=
  [CardLabel.SKIP; CardLabel.REVERSE; CardLabel.DRAW_TWO].
Definition _WILDS : list CardLabel.t :=
  [CardLabel.WILD; CardLabel.WILD_DRAW_FOUR].
Definition _COLORS : list CardColor.t :=
  [CardColor.RED; CardColor.BLUE; CardColor.GREEN; CardColor.YELLOW].

(** [cards_to_add.append(created)], where [created] is a call of a
    factory: its exception, if any, is raised before the append. *)
Definition append_created (created : outcome Card.t) : M (list Card.t) unit :=
  match created with
  | Return card => modify (fun cards_to_add => cards_to_add ++ [card])
  | Raise e => raise e
  end.

(** The three loops of [_initialize_standard_deck] on the local list
    [cards_to_add]. *)
Definition fill_cards_to_add : M (list Card.t) unit :=
  for_in _COLORS (fun color =>
    append_created (CardFactory.create_number_card color 0) ;;
    for_in (range 1 10) (fun number =>
      append_created (CardFactory.create_number_card color number) ;;
      append_created (CardFactory.create_number_card color number))) ;;
  for_in _COLORS (fun color =>
    for_in _ACTIONS (fun action =>
      append_created (CardFactory.create_action_card color action) ;;
      append_created (CardFactory.create_action_card color action))) ;;
  for_in _WILDS (fun wild_type =>
    for_in (range 0 4) (fun _ =>
      append_created (CardFactory.create_wild_card wild_type))).

Definition _initialize_standard_deck : DeckM unit :=
  clear ;;
  match fill_cards_to_add [] with
  | (Return _, cards_to_add) => extend cards_to_add
  | (Raise e, _) => raise e
  end.

(** [all_cards_from_deck] *)
Definition all_cards_from_deck : DeckM (list Card.t) :=
  self <- get ;; ret (_cards self).

(** One step of [deque.rotate]: to the right [appendleft(pop())], to the
    left [append(popleft())]; an empty deque stays empty. *)
Definition rotate_right (cards : list Card.t) : list Card.t :=
  match rev cards with
  | [] => []
  | last :: front => last :: rev front
  end.
Definition rotate_left (cards : list Card.t) : list Card.t :=
  match cards with
  | [] => []
  | first :: rest => rest ++ [first]
  end.

(** The bounds of [Py_ssize_t], the C integer [deque.rotate] converts its
    argument to (a 64-bit build). *)
Definition PY_SSIZE_T_MAX : Z := 2 ^ 63 - 1.
Definition PY_SSIZE_T_MIN : Z := - 2 ^ 63.

(** [deque.rotate(positions)]: [OverflowError] when [positions] does not
    fit a [Py_ssize_t]; otherwise that many steps to the right, or to the
    left when [positions] is negative. *)
Definition rotate (positions : Z) : DeckM unit :=
  if (positions <? PY_SSIZE_T_MIN) || (PY_SSIZE_T_MAX <? positions)
  then raise OverflowError
  else
    modify (fun self =>
      mk (if 0 <=? positions
          then Nat.iter (Z.to_nat positions) rotate_right (_cards self)
          else Nat.iter (Z.to_nat (- positions)) rotate_left (_cards self))).

(** [__len__], [__bool__], [__contains__] *)
Definition __len__ : DeckM Z := size.
Definition __bool__ : DeckM bool :=
  empty <- is_empty ;; ret (negb empty).
Definition __contains__ (card : Card.t) : DeckM bool :=
  self <- get ;; ret (existsb (fun held => Card.eqb held card) (_cards self)).

(** The dictionary [get_card_distribution] returns.  [by_color] and
    [by_label] are dictionaries with one key per member of the
    enumeration, all present from the start, so they are total maps. *)
Record distribution : Type := mk_distribution {
  total : Z;
  number_cards : Z;
  action_cards : Z;
  wild_cards : Z;
  by_color : CardColor.t -> Z;
  by_label : CardLabel.t -> Z
}.

(** [d[key] += 1] on a total map *)
Definition incr_color (key : CardColor.t) (d : CardColor.t -> Z)
  : CardColor.t -> Z :=
  fun k => if CardColor.eqb k key then d k + 1 else d k.
Definition incr_label (key : CardLabel.t) (d : CardLabel.t -> Z)
  : CardLabel.t -> Z :=
  fun k => if CardLabel.eqb k key then d k + 1 else d k.

(** The body of the loop of [get_card_distribution]. *)
Definition count_card (card : Card.t) : M distribution unit :=
  modify (fun d => mk_distribution (total d) (number_cards d) (action_cards d)
                     (wild_cards d) (incr_color (Card.color card) (by_color d))
                     (by_label d)) ;;
  modify (fun d => mk_distribution (total d) (number_cards d) (action_cards d)
                     (wild_cards d) (by_color d)
                     (incr_label (Card.label card) (by_label d))) ;;
  if Card.is_number_card card then
    modify (fun d => mk_distribution (total d) (number_cards d + 1)
                       (action_cards d) (wild_cards d) (by_color d) (by_label d))
  else if Card.is_action_card card then
    modify (fun d => mk_distribution (total d) (number_cards d)
                       (action_cards d + 1) (wild_cards d) (by_color d)
                       (by_label d))
  else if Card.is_wild card then
    modify (fun d => mk_distribution (total d) (number_cards d)
                       (action_cards d) (wild_cards d + 1) (by_color d)
                       (by_label d))
  else ret tt.

Definition get_card_distribution : DeckM distribution :=
  self <- get ;;
  ret (after (for_in (_cards self) count_card)
         (mk_distribution (len self) 0 0 0 (fun _ => 0) (fun _ => 0))).

Section Shuffle.
(** [random.shuffle], pass by pass: the list the [i]-th call leaves in
    place of its argument. *)
Variable random_shuffle : nat -> list Card.t -> list Card.t.
(** [math.ceil(1.5 * math.log2(deck_size))] for a positive [deck_size]; it
    is computed in floating point and is taken as given. *)
Variable num_shuffles : Z -> nat.

(** [for i in range(num_shuffles): random.shuffle(cards_list)] *)
Fixpoint shuffle_passes (i passes : nat) (cards_list : list Card.t)
  : list Card.t :=
  match passes with
  | O => cards_list
  | S k => shuffle_passes (S i) k (random_shuffle i cards_list)
  end.

(** [math.log2(0)] raises [ValueError], so an empty deck cannot be
    shuffled. *)
Definition shuffle : DeckM unit :=
  self <- get ;;
  let cards_list := _cards self in
  let deck_size := Z.of_nat (length cards_list) in
  if deck_size =? 0 then raise ValueError
  else put (mk (shuffle_passes 0 (num_shuffles deck_size) cards_list)).

(** [__init__]: the deck it returns, or the exception it raises. *)
Definition init (initialize : bool) : outcome t :=
  match (when initialize _initialize_standard_deck ;; shuffle) (mk []) with
  | (Return _, self) => Return self
  | (Raise e, _) => Raise e
  end.
End Shuffle.
End Deck.

(** ** [class PlayerAction] and [class Player] *)

Module PlayerAction.
Record t : Type := mk {
  card : option Card.t;
  new_color : option CardColor.t;
  draw_card : bool;
  say_uno : bool
}.

Definition is_none {A} (x : option A) : bool :=
  match x with None => true | Some _ => false end.

Definition is_valid (self : t) : bool :=
  if draw_card self then is_none (card self) && is_none (new_color self)
  else if negb (is_none (card self)) then true
  else false.
End PlayerAction.

Module Player.
(** [_last_action] is created by the first [play_card]; until then the
    attribute is absent ([None]). *)
Record t : Type := mk {
  name : String.string;
  player_id : Z;
  hand : list Card.t;
  has_said_uno : bool;
  score : Z;
  _last_action : option PlayerAction.t
}.

Definition init (name : String.string) (player_id : Z) : t :=
  mk name player_id [] false 0 None.

Definition store_hand (v : list Card.t) (p : t) : t :=
  mk (name p) (player_id p) v (has_said_uno p) (score p) (_last_action p).
Definition store_has_said_uno (v : bool) (p : t) : t :=
  mk (name p) (player_id p) (hand p) v (score p) (_last_action p).
Definition store_last_action (v : option PlayerAction.t) (p : t) : t :=
  mk (name p) (player_id p) (hand p) (has_said_uno p) (score p) v.

Definition PlayerM (A : Type) : Type := M t A.

(** [card in cards], by [Card.__eq__]. *)
Definition contains (card : Card.t) (cards : list Card.t) : bool :=
  existsb (fun held => Card.eqb held card) cards.

(** [cards.remove(card)]: drops the first element equal to [card];
    [None] when there is none (Python raises [ValueError]). *)
Fixpoint list_remove (card : Card.t) (cards : list Card.t)
  : option (list Card.t) :=
  match cards with
  | [] => None
  | held :: rest =>
      if Card.eqb held card then Some rest
      else option_map (cons held) (list_remove card rest)
  end.

Definition __remove_card_from_hand (card : Card.t) : PlayerM unit :=
  self <- get ;;
  match list_remove card (hand self) with
  | Some rest => put (store_hand rest self)
  | None => raise ValueError
  end.

Definition play_card (card : Card.t) (new_color : option CardColor.t)
  : PlayerM PlayerAction.t :=
  self <- get ;;
  if negb (contains card (hand self)) then raise ValueError
  else
    __remove_card_from_hand card ;;
    let action := PlayerAction.mk (Some card) new_color false false in
    modify (store_last_action (Some action)) ;;
    ret action.

Definition say_uno : PlayerM unit :=
  self <- get ;;
  when (Z.of_nat (length (hand self)) =? 1) (modify (store_has_said_uno true)).

Definition has_uno : PlayerM bool :=
  self <- get ;; ret (Z.of_nat (length (hand self)) =? 1).

Definition has_won : PlayerM bool :=
  self <- get ;; ret (Z.of_nat (length (hand self)) =? 0).

Definition get_hand_size : PlayerM Z :=
  self <- get ;; ret (Z.of_nat (length (hand self))).

(** The key [_sort_hand] sorts by, and [<] on such tuples. *)
Definition sort_key (card : Card.t) : Z * Z :=
  (CardColor.value (Card.color card), CardLabel.value (Card.label card)).

Definition key_ltb (a b : Z * Z) : bool :=
  (fst a <? fst b) || ((fst a =? fst b) && (snd a <? snd b)).

(** [list.sort(key=...)] is a stable sort that compares keys with [<]
    only.  A stable sort has one possible result; it is computed here by
    inserting each card, in the order of the list, after the cards whose
    key is not greater. *)
Fixpoint insert_by_key (card : Card.t) (sorted : list Card.t) : list Card.t :=
  match sorted with
  | [] => [card]
  | held :: rest =>
      if key_ltb (sort_key card) (sort_key held) then card :: held :: rest
      else held :: insert_by_key card rest
  end.

Definition sort_by_key (cards : list Card.t) : list Card.t :=
  fold_left (fun sorted card => insert_by_key card sorted) cards [].

Definition _sort_hand : PlayerM unit :=
  modify (fun self => store_hand (sort_by_key (hand self)) self).

Definition add_card_to_hand (card : Card.t) : PlayerM unit :=
  modify (fun self => store_hand (hand self ++ [card]) self) ;;
  modify (store_has_said_uno false) ;;
  _sort_hand.

Definition add_cards_to_hand (cards : list Card.t) : PlayerM unit :=
  modify (fun self => store_hand (hand self ++ cards) self) ;;
  modify (store_has_said_uno false) ;;
  _sort_hand.

(** [sum(card.points for card in self.hand)] *)
Definition calculate_hand_score : PlayerM Z :=
  self <- get ;;
  ret (fold_left (fun acc card => acc + Card.points card) (hand self) 0).
End Player.

(** ** The bots of [uno/bots]

    A bot is a [Player] with the top card and the colour in force it was
    last told of. *)

(** [card.can_play_on(top_card, current_color)] when [top_card] may still
    be [None]: reading an attribute of [None] raises [AttributeError].
    [other.color] is read only when [current_color] is falsy, and
    [other.label] only when the colours differ. *)
Definition can_play_on_known (self : Card.t) (other : option Card.t)
  (current_color : option CardColor.t) : outcome bool :=
  if Card.is_wild self then Return true
  else
    match (match current_color with
           | Some c =>
               if CardColor.truthy c then Return c
               else match other with
                    | Some o => Return (Card.color o)
                    | None => Raise AttributeError
                    end
           | None =>
               match other with
               | Some o => Return (Card.color o)
               | None => Raise AttributeError
               end
           end) with
    | Raise e => Raise e
    | Return wanted =>
        if CardColor.eqb (Card.color self) wanted then Return true
        else
          match other with
          | None => Raise AttributeError
          | Some o =>
              if CardLabel.eqb (Card.label self) (Card.label o)
                 && negb (Card.is_wild o)
              then Return true
              else Return false
          end
    end.

(** [enumerate(hand)] *)
Definition enumerate (cards : list Card.t) : list (Z * Card.t) :=
  combine (map Z.of_nat (seq 0 (length cards))) cards.

(** The loop that fills [valid_selections], a local list. *)
Definition valid_selections (cards : list Card.t) (top_card : option Card.t)
  (current_color : option CardColor.t) : outcome (list (Z * Card.t)) :=
  match for_in (enumerate cards)
          (fun selection =>
             match can_play_on_known (snd selection) top_card current_color with
             | Raise e => raise e
             | Return playable =>
                 when playable (modify (fun found => found ++ [selection]))
             end) [] with
  | (Return _, found) => Return found
  | (Raise e, _) => Raise e
  end.

(** [color_counts[color] += 1] on a dictionary kept as the list of its
    items in insertion order; [KeyError] when the key is absent. *)
Fixpoint count_up (color : CardColor.t) (color_counts : list (CardColor.t * Z))
  : outcome (list (CardColor.t * Z)) :=
  match color_counts with
  | [] => Raise KeyError
  | (key, n) :: rest =>
      if CardColor.eqb key color then Return ((key, n + 1) :: rest)
      else match count_up color rest with
           | Return rest' => Return ((key, n) :: rest')
           | Raise e => Raise e
           end
  end.

(** [max(color_counts, key=color_counts.get)]: the first key, in insertion
    order, whose count no other exceeds; [ValueError] on an empty
    dictionary. *)
Fixpoint max_from (best : CardColor.t) (best_count : Z)
  (items : list (CardColor.t * Z)) : CardColor.t :=
  match items with
  | [] => best
  | (key, n) :: rest =>
      if best_count <? n then max_from key n rest
      else max_from best best_count rest
  end.

Definition max_by_count (color_counts : list (CardColor.t * Z))
  : outcome CardColor.t :=
  match color_counts with
  | [] => Raise ValueError
  | (key, n) :: rest => Return (max_from key n rest)
  end.

(** The body of [choose_color], the same text in [WildFirstBot] and
    [WildLastBot]; the argument [wild_card] is not used. *)
Definition most_held_color (cards : list Card.t) : outcome CardColor.t :=
  match for_in cards
          (fun card =>
             if negb (Card.is_wild card) then
               color_counts <- get ;;
               match count_up (Card.color card) color_counts with
               | Return counted => put counted
               | Raise e => raise e
               end
             else ret tt)
          [(CardColor.RED, 0); (CardColor.BLUE, 0);
           (CardColor.GREEN, 0); (CardColor.YELLOW, 0)] with
  | (Return _, color_counts) => max_by_count color_counts
  | (Raise e, _) => Raise e
  end.

Section RandomChoice.
(** [random.choice(seq)] is [seq[randbelow(len(seq))]]; the random source
    is taken as given. *)
Variable randbelow : nat -> nat.

Definition choice {A} (seq : list A) : outcome A :=
  match nth_error seq (randbelow (length seq)) with
  | Some x => Return x
  | None => Raise IndexError
  end.
End RandomChoice.

Module WildFirstBot.
Record t : Type := mk {
  player : Player.t;
  _top_card : option Card.t;
  _current_color : option CardColor.t
}.

Definition init (name : String.string) (player_id : Z) : t :=
  mk (Player.init name player_id) None None.

Definition BotM (A : Type) : Type := M t A.

(** A method inherited from [Player]. *)
Definition inherited {A} (m : Player.PlayerM A) : BotM A :=
  fun self =>
    (fst (m (player self)),
     mk (snd (m (player self))) (_top_card self) (_current_color self)).

Definition update_game_state (playable_cards : list Card.t)
  (top_card : Card.t) (current_color : option CardColor.t) : BotM unit :=
  modify (fun self => mk (player self) (Some top_card) (_current_color self)) ;;
  modify (fun self => mk (player self) (_top_card self) current_color).

Definition choose_color (wild_card : Card.t) : BotM CardColor.t :=
  self <- get ;;
  match most_held_color (Player.hand (player self)) with
  | Return color => ret color
  | Raise e => raise e
  end.

Section Choice.
Variable randbelow : nat -> nat.

Definition choose_action : BotM PlayerAction.t :=
  self <- get ;;
  match valid_selections (Player.hand (player self)) (_top_card self)
          (_current_color self) with
  | Raise e => raise e
  | Return valid =>
      match valid with
      | _ :: _ =>
          let wilds := filter (fun selection => Card.is_wild (snd selection))
                         valid in
          match wilds with
          | (index, card) :: _ =>
              new_color <-
                (if Card.is_wild card
                 then (color <- choose_color card ;; ret (Some color))
                 else ret None) ;;
              inherited (Player.play_card card new_color)
          | [] =>
              match choice randbelow valid with
              | Return (index, card) => inherited (Player.play_card card None)
              | Raise e => raise e
              end
          end
      | [] => ret (PlayerAction.mk None None true false)
      end
  end.
End Choice.

Definition decide_say_uno : BotM bool := ret true.

Definition should_play_drawn_card (drawn_card : Card.t) : BotM bool :=
  self <- get ;;
  match can_play_on_known drawn_card (_top_card self) (_current_color self) with
  | Return playable => ret playable
  | Raise e => raise e
  end.
End WildFirstBot.

Module WildLastBot.
Record t : Type := mk {
  player : Player.t;
  _top_card : option Card.t;
  _current_color : option CardColor.t
}.

Definition init (name : String.string) (player_id : Z) : t :=
  mk (Player.init name player_id) None None.

Definition BotM (A : Type) : Type := M t A.

(** A method inherited from [Player]. *)
Definition inherited {A} (m : Player.PlayerM A) : BotM A :=
  fun self =>
    (fst (m (player self)),
     mk (snd (m (player self))) (_top_card self) (_current_color self)).

Definition update_game_state (playable_cards : list Card.t)
  (top_card : Card.t) (current_color : option CardColor.t) : BotM unit :=
  modify (fun self => mk (player self) (Some top_card) (_current_color self)) ;;
  modify (fun self => mk (player self) (_top_card self) current_color).

Definition choose_color (wild_card : Card.t) : BotM CardColor.t :=
  self <- get ;;
  match most_held_color (Player.hand (player self)) with
  | Return color => ret color
  | Raise e => raise e
  end.

Section Choice.
Variable randbelow : nat -> nat.

Definition choose_action : BotM PlayerAction.t :=
  has_uno <- inherited Player.has_uno ;;
  self <- get ;;
  match valid_selections (Player.hand (player self)) (_top_card self)
          (_current_color self) with
  | Raise e => raise e
  | Return valid =>
      match valid with
      | (index, card) :: _ =>
          if has_uno then
            new_color <-
              (if Card.is_wild card
               then (color <- choose_color card ;; ret (Some color))
               else ret None) ;;
            inherited (Player.play_card card new_color)
          else
            let non_wilds :=
              filter (fun selection => negb (Card.is_wild (snd selection)))
                valid in
            match non_wilds with
            | _ :: _ =>
                match choice randbelow non_wilds with
                | Return (index, card) =>
                    inherited (Player.play_card card None)
                | Raise e => raise e
                end
            | [] =>
                if 1 <? Z.of_nat (length valid) then
                  match choice randbelow valid with
                  | Return (index, card) =>
                      new_color <-
                        (if Card.is_wild card
                         then (color <- choose_color card ;; ret (Some color))
                         else ret None) ;;
                      inherited (Player.play_card card new_color)
                  | Raise e => raise e
                  end
                else ret (PlayerAction.mk None None true false)
            end
      | [] => ret (PlayerAction.mk None None true false)
      end
  end.
End Choice.

Definition should_play_drawn_card (drawn_card : Card.t) : BotM bool :=
  self <- get ;;
  if negb (Card.is_wild drawn_card) then
    match can_play_on_known drawn_card (_top_card self) (_current_color self)
    with
    | Return playable => ret playable
    | Raise e => raise e
    end
  else ret false.
End WildLastBot.

(** [seq[index]]: a negative index counts from the end, and an index
    outside the list raises [IndexError]. *)
Definition list_index {A} (seq : list A) (index : Z) : outcome A :=
  let position := if index <? 0 then index + Z.of_nat (length seq) else index in
  if position <? 0 then Raise IndexError
  else match nth_error seq (Z.to_nat position) with
       | Some x => Return x
       | None => Raise IndexError
       end.

Module RandomBot.
Record t : Type := mk {
  player : Player.t;
  _top_card : option Card.t;
  _current_color : option CardColor.t
}.

Definition init (name : String.string) (player_id : Z) : t :=
  mk (Player.init name player_id) None None.

Definition BotM (A : Type) : Type := M t A.

(** A method inherited from [Player]. *)
Definition inherited {A} (m : Player.PlayerM A) : BotM A :=
  fun self =>
    (fst (m (player self)),
     mk (snd (m (player self))) (_top_card self) (_current_color self)).

Definition update_game_state (playable_cards : list Card.t)
  (top_card : Card.t) (current_color : option CardColor.t) : BotM unit :=
  modify (fun self => mk (player self) (Some top_card) (_current_color self)) ;;
  modify (fun self => mk (player self) (_top_card self) current_color).

Section Random.
(** The random source: [randbelow] behind [random.choice], and
    [randint k a b], the value of the [k]-th call of
    [random.randint(a, b)] that [choose_action] makes. *)
Variable randbelow : nat -> nat.
Variable randint : nat -> Z -> Z -> Z.

Definition choose_color (wild_card : Card.t) : BotM CardColor.t :=
  match choice randbelow
          [CardColor.RED; CardColor.BLUE; CardColor.GREEN; CardColor.YELLOW]
  with
  | Return color => ret color
  | Raise e => raise e
  end.

(** [choose_action] is a [while True] loop.  [passes] bounds the number
    of passes of the loop that are run and [calls] counts the calls of
    [randint] made so far; [None] says that the loop is still running
    after [passes] passes. *)
Fixpoint choose_action (passes calls : nat) (self : t)
  : option (outcome PlayerAction.t * t) :=
  match passes with
  | O => None
  | S more =>
      let hand := Player.hand (player self) in
      let selection := randint calls 0 (Z.of_nat (length hand)) in
      if selection =? Z.of_nat (length hand) then
        Some (Return (PlayerAction.mk None None true false), self)
      else
        match list_index hand selection with
        | Raise e => Some (Raise e, self)
        | Return card =>
            match can_play_on_known card (_top_card self)
                    (_current_color self) with
            | Raise e => Some (Raise e, self)
            | Return true =>
                Some ((new_color <-
                         (if Card.is_wild card
                          then (color <- choose_color card ;;
                                ret (Some color))
                          else ret None) ;;
                       inherited (Player.play_card card new_color)) self)
            | Return false => choose_action more (S calls) self
            end
        end
  end.
End Random.
End RandomBot.

(** ** Vocabulary of the statements *)

(** The only automatic transition of the setters: [NO_EFFECT] becomes
    [PENDING], every other state stays. *)
Definition to_pending (s : EffectState.t) : EffectState.t :=
  match s with
  | EffectState.NO_EFFECT => EffectState.PENDING
  | _ => s
  end.

(** One arrow of [NO_EFFECT -> PENDING -> APPLIED -> RESOLVED]. *)
Inductive arrow : EffectState.t -> EffectState.t -> Prop :=
| arrow_pending : arrow EffectState.NO_EFFECT EffectState.PENDING
| arrow_applied : arrow EffectState.PENDING EffectState.APPLIED
| arrow_resolved : arrow EffectState.APPLIED EffectState.RESOLVED.

(** Every method of [CardEffect] except [reset_state] and
    [clear_effects], with its arguments. *)
Inductive call : Type :=
| Call_set_pending
| Call_set_applied
| Call_set_resolved
| Call_is_active
| Call_is_pending
| Call_is_applied
| Call_is_resolved
| Assign_color_change (color : option CardColor.t)
| Assign_draw_count (count : Z)
| Assign_skip_count (count : Z)
| Assign_reverse_direction (reverse : bool)
| Assign_stackable (stackable : bool)
| Call_has_effects
| Call_combine (other : CardEffect.operand)
| Call_execute_draw
| Call_execute_skip.

(** The effect object after the call, whether it returned or raised. *)
Definition run (c : call) (e : CardEffect.t) : CardEffect.t :=
  match c with
  | Call_set_pending => after CardEffect.set_pending e
  | Call_set_applied => after CardEffect.set_applied e
  | Call_set_resolved => after CardEffect.set_resolved e
  | Call_is_active => after CardEffect.is_active e
  | Call_is_pending => after CardEffect.is_pending e
  | Call_is_applied => after CardEffect.is_applied e
  | Call_is_resolved => after CardEffect.is_resolved e
  | Assign_color_change color => after (CardEffect.set_color_change color) e
  | Assign_draw_count count => after (CardEffect.set_draw_count count) e
  | Assign_skip_count count => after (CardEffect.set_skip_count count) e
  | Assign_reverse_direction reverse =>
      after (CardEffect.set_reverse_direction reverse) e
  | Assign_stackable stackable => after (CardEffect.set_stackable stackable) e
  | Call_has_effects => after CardEffect.has_effects e
  | Call_combine other => after (CardEffect.combine other) e
  | Call_execute_draw => after CardEffect.execute_draw e
  | Call_execute_skip => after CardEffect.execute_skip e
  end.

(** The effect [other] denotes when [combine] is entered on [self]. *)
Definition operand_value (other : CardEffect.operand) (self : CardEffect.t)
  : CardEffect.t :=
  match other with
  | CardEffect.Other b => b
  | CardEffect.Self => self
  end.

(** A method that leaves the state alone or takes [NO_EFFECT] to
    [PENDING]; such methods compose. *)
Definition pends {A} (m : CardEffect.Eff A) : Prop :=
  forall e, CardEffect._state (after m e) = CardEffect._state e
            \/ (CardEffect._state e = EffectState.NO_EFFECT
                /\ CardEffect._state (after m e) = EffectState.PENDING).

(** The state [combine] leaves: [to_pending] of the old one as soon as the
    other effect is not idle or contributes a colour, a positive draw or
    skip total, or a reverse; the old state otherwise. *)
Definition combined_state (a b : CardEffect.t) : EffectState.t :=
  if negb (EffectState.eqb (CardEffect._state b) EffectState.NO_EFFECT)
     || match CardEffect._color_change b with Some _ => true | None => false end
     || (0 <? CardEffect._draw_count a + CardEffect._draw_count b)
     || (0 <? CardEffect._skip_count a + CardEffect._skip_count b)
     || CardEffect._reverse_direction b
  then to_pending (CardEffect._state a)
  else CardEffect._state a.

(** Cards, effects and players the examples run on. *)
Definition red_five : Card.t := Card.mk CardColor.RED CardLabel.FIVE false.
Definition blue_five : Card.t := Card.mk CardColor.BLUE CardLabel.FIVE false.
Definition blue_seven : Card.t := Card.mk CardColor.BLUE CardLabel.SEVEN false.
Definition wild_card : Card.t := Card.mk CardColor.WILD CardLabel.WILD true.
Definition wild_draw_four : Card.t :=
  Card.mk CardColor.WILD CardLabel.WILD_DRAW_FOUR true.

Definition draw_two_pending : CardEffect.t :=
  CardEffect.mk EffectState.PENDING None 2 0 false false.

Definition alice : Player.t :=
  Player.mk "alice"%string 1 [blue_seven; red_five] false 0 None.

(** Follows the words of the specification of [PlayerAction]: "exactly one
    of play a specific owned card (optionally naming a new color, required
    iff the card is wild) or draw a card -- never both".  It is compared
    with [PlayerAction.is_valid], which is the code. *)
Definition claimed_valid (a : PlayerAction.t) : bool :=
  match PlayerAction.draw_card a, PlayerAction.card a with
  | true, None => PlayerAction.is_none (PlayerAction.new_color a)
  | false, Some c =>
      Bool.eqb (negb (PlayerAction.is_none (PlayerAction.new_color a)))
               (Card.is_wild c)
  | _, _ => false
  end.

(** The cards [_initialize_standard_deck] puts in a deck, in its order. *)
Definition standard_cards : list Card.t :=
  Deck._cards (after Deck._initialize_standard_deck (Deck.mk [])).

(** How many of [cards] satisfy [p]. *)
Definition count_where (p : Card.t -> bool) (cards : list Card.t) : Z :=
  Z.of_nat (length (filter p cards)).

(** The sum of the values of a dictionary keyed by colour. *)
Definition sum_by_color (d : CardColor.t -> Z) : Z :=
  d CardColor.RED + d CardColor.BLUE + d CardColor.GREEN
  + d CardColor.YELLOW + d CardColor.WILD.

(** A decidable form of [Card.constructed]: the constructor, called on the
    card's own colour and label, returns that very card. *)
Definition constructedb (c : Card.t) : bool :=
  match Card.init (Card.color c) (Card.label c) with
  | Return c' => Bool.eqb (Card.is_wild c) (Card.is_wild c')
  | Raise _ => false
  end.

(** [a] may stand before [b] in a sorted hand: the key of [b] is not less
    than the key of [a]. *)
Definition hand_order (a b : Card.t) : Prop :=
  Player.key_ltb (Player.sort_key b) (Player.sort_key a) = false.

(** The points of a list of cards, added up. *)
Definition points_of (cards : list Card.t) : Z :=
  fold_right Z.add 0 (map Card.points cards).

(** The state of an effect after a sequence of calls. *)
Definition run_all (calls : list call) (e : CardEffect.t) : CardEffect.t :=
  fold_left (fun e c => run c e) calls e.

(** What holds of every effect the methods can produce: the counts are not
    negative, the colour change is not [WILD], and an effect in
    [NO_EFFECT] carries no colour change, no draw, no skip and no
    reverse. *)
Definition sound (e : CardEffect.t) : Prop :=
  CardEffect.wf e
  /\ (CardEffect._state e = EffectState.NO_EFFECT ->
      CardEffect._color_change e = None
      /\ CardEffect._draw_count e = 0
      /\ CardEffect._skip_count e = 0
      /\ CardEffect._reverse_direction e = false).

(** A method that keeps an effect [sound], returning or raising. *)
Definition keeps {A} (m : CardEffect.Eff A) : Prop :=
  forall e, sound e -> sound (after m e).

(** How many non-wild cards of [cards] have the colour [color]: what
    [choose_color] counts. *)
Definition held_of (color : CardColor.t) (cards : list Card.t) : Z :=
  count_where (fun c => negb (Card.is_wild c)
                        && CardColor.eqb (Card.color c) color) cards.

(** The dictionary of [choose_color] with its four keys. *)
Definition four_counts (r b g y : Z) : list (CardColor.t * Z) :=
  [(CardColor.RED, r); (CardColor.BLUE, b);
   (CardColor.GREEN, g); (CardColor.YELLOW, y)].

(** ** The method monad *)

Section MonadFacts.
Context {S : Type}.

Lemma after_bind {A B} (m : M S A) (k : A -> M S B) (s : S) :
  after (bind m k) s =
  match result m s with
  | Return a => after (k a) (after m s)
  | Raise _ => after m s
  end.
Proof.
  unfold after, result, bind. destruct (m s) as [[a | e] s']; reflexivity.
Qed.

Lemma result_bind {A B} (m : M S A) (k : A -> M S B) (s : S) :
  result (bind m k) s =
  match result m s with
  | Return a => result (k a) (after m s)
  | Raise e => Raise e
  end.
Proof.
  unfold after, result, bind. destruct (m s) as [[a | e] s']; reflexivity.
Qed.

Lemma run_eq {A} (m : M S A) (s : S) : m s = (result m s, after m s).
Proof. unfold result, after. destruct (m s); reflexivity. Qed.
End MonadFacts.

(** Runs the monadic plumbing of a method on the object at hand. *)
Ltac step_method :=
  unfold after, result, bind, ret, raise, get, put, modify, when; cbn.

(** ** Equality tests of the enumerations *)

Lemma CardColor_eqb_eq (a b : CardColor.t) :
  CardColor.eqb a b = true <-> a = b.
Proof. destruct a, b; cbv; split; congruence. Qed.

Lemma CardLabel_eqb_eq (a b : CardLabel.t) :
  CardLabel.eqb a b = true <-> a = b.
Proof. destruct a, b; cbv; split; congruence. Qed.

Lemma EffectState_eqb_eq (a b : EffectState.t) :
  EffectState.eqb a b = true <-> a = b.
Proof. destruct a, b; cbv; split; congruence. Qed.

Lemma CardColor_eqb_refl (a : CardColor.t) : CardColor.eqb a a = true.
Proof. now apply CardColor_eqb_eq. Qed.

Lemma CardLabel_eqb_refl (a : CardLabel.t) : CardLabel.eqb a a = true.
Proof. now apply CardLabel_eqb_eq. Qed.

(** ** The effect state machine *)

Section EffectStateMachine.
Import CardEffect.

Lemma pends_ret {A} (a : A) : pends (ret a).
Proof. intros e. now left. Qed.

Lemma pends_raise {A} (x : exn) : pends (raise (A := A) x).
Proof. intros e. now left. Qed.

Lemma pends_get : pends get.
Proof. intros e. now left. Qed.

Lemma pends_bind {A B} (m : Eff A) (k : A -> Eff B) :
  pends m -> (forall a, pends (k a)) -> pends (bind m k).
Proof.
  intros Hm Hk e. rewrite after_bind.
  destruct (result m e) as [a | x]; [| apply Hm].
  destruct (Hm e) as [Hsame | [H0 H1]], (Hk a (after m e)) as [Hk' | [Hk0 Hk1]].
  - left; congruence.
  - right; split; congruence.
  - right; split; congruence.
  - congruence.
Qed.

Lemma pends_when (b : bool) (m : Eff unit) : pends m -> pends (when b m).
Proof. destruct b; [auto | intros _; apply pends_ret]. Qed.

Lemma pends_modify (f : t -> t) :
  (forall e, _state (f e) = _state e) -> pends (modify f).
Proof. intros Hf e. left. apply Hf. Qed.

Lemma pends_deref (other : operand) : pends (deref other).
Proof. destruct other; [apply pends_ret | apply pends_get]. Qed.

Lemma state_set_pending (e : t) :
  _state (after set_pending e) = to_pending (_state e).
Proof. destruct e as [[] ? ? ? ? ?]; reflexivity. Qed.

Lemma pends_set_pending : pends set_pending.
Proof.
  intros e. rewrite state_set_pending.
  destruct (_state e); [right; split | left | left | left]; reflexivity.
Qed.

Lemma pends_set_color_change (color : option CardColor.t) :
  pends (set_color_change color).
Proof.
  unfold set_color_change. apply pends_bind.
  - destruct color as [c |]; [| apply pends_ret].
    destruct (CardColor.eqb c CardColor.WILD);
      [apply pends_raise | apply pends_set_pending].
  - intros _. now apply pends_modify.
Qed.

Lemma pends_set_draw_count (count : Z) : pends (set_draw_count count).
Proof.
  unfold set_draw_count. destruct (count <? 0); [apply pends_raise |].
  apply pends_bind; [apply pends_when, pends_set_pending |].
  intros _. now apply pends_modify.
Qed.

Lemma pends_set_skip_count (count : Z) : pends (set_skip_count count).
Proof.
  unfold set_skip_count. destruct (count <? 0); [apply pends_raise |].
  apply pends_bind; [apply pends_when, pends_set_pending |].
  intros _. now apply pends_modify.
Qed.

Lemma pends_set_reverse_direction (reverse : bool) :
  pends (set_reverse_direction reverse).
Proof.
  unfold set_reverse_direction.
  apply pends_bind; [apply pends_when, pends_set_pending |].
  intros _. now apply pends_modify.
Qed.

Lemma pends_set_stackable (stackable : bool) : pends (set_stackable stackable).
Proof. now apply pends_modify. Qed.

Lemma pends_combine (other : operand) : pends (combine other).
Proof.
  unfold combine.
  repeat first
    [ apply pends_set_pending
    | apply pends_set_color_change | apply pends_set_draw_count
    | apply pends_set_skip_count | apply pends_set_reverse_direction
    | apply pends_set_stackable
    | apply pends_deref | apply pends_get | apply pends_ret
    | apply pends_when
    | match goal with |- pends (match ?x with _ => _ end) => destruct x end
    | apply pends_bind; [| intros ?] ].
Qed.

Lemma pends_arrow {A} (m : Eff A) (e : t) :
  pends m ->
  _state (after m e) = _state e \/ arrow (_state e) (_state (after m e)).
Proof.
  intros Hm. destruct (Hm e) as [H | [H0 H1]]; [now left | right].
  rewrite H0, H1. constructor.
Qed.

Lemma arrow_le (s s' : EffectState.t) : arrow s s' -> EffectState.le s s'.
Proof. destruct 1; cbv; congruence. Qed.
End EffectStateMachine.

Section EffectTransitions.
Import CardEffect.

Lemma set_applied_spec (e : t) :
  (_state e = EffectState.PENDING ->
   after set_applied e = store_state EffectState.APPLIED e)
  /\ (_state e <> EffectState.PENDING -> after set_applied e = e).
Proof.
  destruct e as [[] c d s r k]; split; intros H; cbn in *;
    solve [reflexivity | congruence].
Qed.

Lemma set_resolved_spec (e : t) :
  (_state e = EffectState.APPLIED ->
   after set_resolved e = store_state EffectState.RESOLVED e)
  /\ (_state e <> EffectState.APPLIED -> after set_resolved e = e).
Proof.
  destruct e as [[] c d s r k]; split; intros H; cbn in *;
    solve [reflexivity | congruence].
Qed.

Lemma execute_keeps_state (e : t) :
  _state (after execute_draw e) = _state e
  /\ _state (after execute_skip e) = _state e.
Proof.
  destruct e as [st c d s r k]. unfold execute_draw, execute_skip, is_applied.
  step_method. split.
  - destruct (EffectState.eqb st EffectState.APPLIED && (0 <? d)); reflexivity.
  - destruct (EffectState.eqb st EffectState.APPLIED && (0 <? s)); reflexivity.
Qed.

Lemma run_arrow (c : call) (e : t) :
  _state (run c e) = _state e \/ arrow (_state e) (_state (run c e)).
Proof.
  destruct c; cbn [run];
    try (apply pends_arrow;
         first [ apply pends_set_pending | apply pends_set_color_change
               | apply pends_set_draw_count | apply pends_set_skip_count
               | apply pends_set_reverse_direction | apply pends_set_stackable
               | apply pends_combine ]);
    try (left; reflexivity).
  - destruct e as [[] ? ? ? ? ?]; unfold set_applied; step_method;
      solve [left; reflexivity | right; constructor].
  - destruct e as [[] ? ? ? ? ?]; unfold set_resolved; step_method;
      solve [left; reflexivity | right; constructor].
  - left. apply execute_keeps_state.
  - left. apply execute_keeps_state.
Qed.

Lemma truthy_color_assignment (e : t) (c : CardColor.t) :
  c <> CardColor.WILD ->
  set_color_change (Some c) e =
  (Return tt, store_color_change (Some c) (store_state (to_pending (_state e)) e)).
Proof.
  intros Hc. unfold set_color_change.
  destruct (CardColor.eqb c CardColor.WILD) eqn:Hw.
  - apply CardColor_eqb_eq in Hw. contradiction.
  - destruct e as [[] ? ? ? ? ?]; reflexivity.
Qed.

Lemma truthy_draw_assignment (e : t) (n : Z) :
  0 < n ->
  set_draw_count n e =
  (Return tt, store_draw_count n (store_state (to_pending (_state e)) e)).
Proof.
  intros Hn. unfold set_draw_count.
  replace (n <? 0) with false by (symmetry; apply Z.ltb_ge; lia).
  replace (0 <? n) with true by (symmetry; apply Z.ltb_lt; lia).
  destruct e as [[] ? ? ? ? ?]; reflexivity.
Qed.

Lemma truthy_skip_assignment (e : t) (n : Z) :
  0 < n ->
  set_skip_count n e =
  (Return tt, store_skip_count n (store_state (to_pending (_state e)) e)).
Proof.
  intros Hn. unfold set_skip_count.
  replace (n <? 0) with false by (symmetry; apply Z.ltb_ge; lia).
  replace (0 <? n) with true by (symmetry; apply Z.ltb_lt; lia).
  destruct e as [[] ? ? ? ? ?]; reflexivity.
Qed.

Lemma truthy_reverse_assignment (e : t) :
  set_reverse_direction true e =
  (Return tt, store_reverse_direction true (store_state (to_pending (_state e)) e)).
Proof. destruct e as [[] ? ? ? ? ?]; reflexivity. Qed.

(** C5, as the code has it: the state of a [CardEffect] only moves along
    [NO_EFFECT -> PENDING -> APPLIED -> RESOLVED].  Assigning a colour
    that is neither [None] nor [WILD], a positive draw or skip count, or a
    true reverse flag returns normally and takes [NO_EFFECT] to [PENDING],
    leaving every other state as it is; assigning the colour [WILD] (or a
    negative count) raises [ValueError] and leaves the effect, its state
    included, as it was; [set_applied] moves the state only from
    [PENDING] and otherwise leaves the whole object unchanged (so in
    [NO_EFFECT] and [RESOLVED]); [set_resolved] moves it only from
    [APPLIED]; and every method other than [reset_state]/[clear_effects],
    returning or raising, keeps the state or follows one arrow, so never
    decreases it. *)
Theorem effect_state_only_advances :
  (forall e c, c <> CardColor.WILD ->
     result (set_color_change (Some c)) e = Return tt
     /\ _state (after (set_color_change (Some c)) e) = to_pending (_state e))
  /\ (forall e n, 0 < n ->
     result (set_draw_count n) e = Return tt
     /\ _state (after (set_draw_count n) e) = to_pending (_state e))
  /\ (forall e n, 0 < n ->
     result (set_skip_count n) e = Return tt
     /\ _state (after (set_skip_count n) e) = to_pending (_state e))
  /\ (forall e,
     result (set_reverse_direction true) e = Return tt
     /\ _state (after (set_reverse_direction true) e) = to_pending (_state e))
  /\ (forall e, _state e = EffectState.PENDING ->
     _state (after set_applied e) = EffectState.APPLIED)
  /\ (forall e, _state e <> EffectState.PENDING -> after set_applied e = e)
  /\ (forall e, _state e = EffectState.APPLIED ->
     _state (after set_resolved e) = EffectState.RESOLVED)
  /\ (forall e, _state e <> EffectState.APPLIED -> after set_resolved e = e)
  /\ (forall c e,
     _state (run c e) = _state e \/ arrow (_state e) (_state (run c e)))
  /\ (forall c e, EffectState.le (_state e) (_state (run c e)))
  /\ (forall e, set_color_change (Some CardColor.WILD) e = (Raise ValueError, e))
  /\ (forall e n, n < 0 ->
     set_draw_count n e = (Raise ValueError, e)
     /\ set_skip_count n e = (Raise ValueError, e)).
Proof.
  repeat apply conj; [.. | reflexivity |
    intros e n Hn; unfold set_draw_count, set_skip_count;
    replace (n <? 0) with true by (symmetry; apply Z.ltb_lt; lia);
    split; reflexivity ].
  - intros e c Hc. unfold result, after.
    rewrite (truthy_color_assignment e c Hc). split; reflexivity.
  - intros e n Hn. unfold result, after.
    rewrite (truthy_draw_assignment e n Hn). split; reflexivity.
  - intros e n Hn. unfold result, after.
    rewrite (truthy_skip_assignment e n Hn). split; reflexivity.
  - intros e. unfold result, after.
    rewrite (truthy_reverse_assignment e). split; reflexivity.
  - intros e H. now rewrite (proj1 (set_applied_spec e) H).
  - intros e H. now apply set_applied_spec.
  - intros e H. now rewrite (proj1 (set_resolved_spec e) H).
  - intros e H. now apply set_resolved_spec.
  - apply run_arrow.
  - intros c e. destruct (run_arrow c e) as [H | H].
    + rewrite H. unfold EffectState.le. lia.
    + now apply arrow_le.
Qed.

(** A fresh effect given a draw count of 2 is [PENDING]; [set_applied] on a
    fresh effect does nothing; a [combine] cannot lower an [APPLIED]
    state. *)
Lemma effect_state_only_advances_witness :
  _state (after (set_draw_count 2) init) = EffectState.PENDING
  /\ after set_applied init = init
  /\ EffectState.le EffectState.APPLIED
       (_state (run (Call_combine Self)
                  (store_state EffectState.APPLIED init))).
Proof.
  destruct effect_state_only_advances
    as (_ & Hdraw & _ & _ & _ & Happlied & _ & _ & _ & Hle & _).
  split; [| split].
  - apply (Hdraw init 2). lia.
  - apply (Happlied init). discriminate.
  - apply (Hle (Call_combine Self) (store_state EffectState.APPLIED init)).
Defined.

(** C5 as stated fails: [WILD] is a colour other than [None], yet
    assigning it to a new effect raises [ValueError] and the effect stays
    in [NO_EFFECT] instead of moving to [PENDING]. *)
Lemma assigning_wild_stays_idle :
  Some CardColor.WILD <> None
  /\ _state init = EffectState.NO_EFFECT
  /\ result (set_color_change (Some CardColor.WILD)) init = Raise ValueError
  /\ _state (after (set_color_change (Some CardColor.WILD)) init)
     = EffectState.NO_EFFECT
  /\ _state (after (set_color_change (Some CardColor.WILD)) init)
     <> EffectState.PENDING.
Proof. repeat split; discriminate. Qed.
End EffectTransitions.

(** ** Clearing and executing an effect *)

Section EffectExecution.
Import CardEffect.

Lemma reset_state_succ (k : nat) (e : t) :
  reset_state (S k) e = clear_effects k (store_state EffectState.NO_EFFECT e).
Proof. reflexivity. Qed.

Lemma clear_effects_succ (k : nat) (e : t) :
  clear_effects (S k) e =
  reset_state k
    (mk (_state e) None 0 0 false false).
Proof. reflexivity. Qed.

(** C2: on the code, [reset_state] and [clear_effects] never return.  Each
    calls the other unconditionally, so whatever number of stack frames is
    available the call ends in [RecursionError], from every effect. *)
Theorem reset_state_never_returns (frames : nat) (e : CardEffect.t) :
  result (reset_state frames) e = Raise RecursionError
  /\ result (clear_effects frames) e = Raise RecursionError.
Proof.
  revert e. induction frames as [| k IH]; intros e.
  - split; reflexivity.
  - unfold result. rewrite reset_state_succ, clear_effects_succ.
    split; apply IH.
Qed.

(** What the failed call leaves behind once both bodies have run: the
    object [__init__] builds. *)
Lemma reset_state_leaves_init (k : nat) (e : t) :
  after (reset_state (S (S k))) e = init
  /\ after (clear_effects (S (S k))) e = init.
Proof.
  revert e. induction k as [| k IH]; intros e.
  - split; reflexivity.
  - unfold after. rewrite reset_state_succ, (clear_effects_succ (S (S k))).
    split; apply IH.
Qed.

Lemma execute_draw_init : execute_draw init = (Return 0, init).
Proof. reflexivity. Qed.

Lemma execute_draw_applied (e : t) :
  _state e = EffectState.APPLIED -> 0 <= _draw_count e ->
  execute_draw e = (Return (_draw_count e), store_draw_count 0 e).
Proof.
  destruct e as [st c d s r k]; cbn. intros -> Hd.
  unfold execute_draw, is_applied. step_method.
  destruct (Z.ltb_spec 0 d) as [Hpos | Hzero]; [reflexivity |].
  assert (d = 0) as -> by lia. reflexivity.
Qed.

Lemma execute_skip_applied (e : t) :
  _state e = EffectState.APPLIED -> 0 <= _skip_count e ->
  execute_skip e = (Return (_skip_count e), store_skip_count 0 e).
Proof.
  destruct e as [st c d s r k]; cbn. intros -> Hs.
  unfold execute_skip, is_applied. step_method.
  destruct (Z.ltb_spec 0 s) as [Hpos | Hzero]; [reflexivity |].
  assert (s = 0) as -> by lia. reflexivity.
Qed.

Lemma execute_not_applied (e : t) :
  _state e <> EffectState.APPLIED ->
  execute_draw e = (Return 0, e) /\ execute_skip e = (Return 0, e).
Proof.
  destruct e as [[] c d s r k]; cbn; intros H; try congruence;
    split; reflexivity.
Qed.

Lemma execute_draw_again (e : t) :
  result execute_draw (after execute_draw e) = Return 0.
Proof.
  destruct e as [st c d s r k].
  unfold execute_draw, is_applied. step_method.
  destruct (EffectState.eqb st EffectState.APPLIED) eqn:Hst; cbn;
    [| rewrite Hst; reflexivity].
  destruct (0 <? d) eqn:Hd; cbn; rewrite Hst; cbn;
    [| rewrite Hd]; reflexivity.
Qed.

Lemma execute_skip_again (e : t) :
  result execute_skip (after execute_skip e) = Return 0.
Proof.
  destruct e as [st c d s r k].
  unfold execute_skip, is_applied. step_method.
  destruct (EffectState.eqb st EffectState.APPLIED) eqn:Hst; cbn;
    [| rewrite Hst; reflexivity].
  destruct (0 <? s) eqn:Hs; cbn; rewrite Hst; cbn;
    [| rewrite Hs]; reflexivity.
Qed.

(** C7: for an effect whose counts are not negative, [execute_draw]
    (resp. [execute_skip]) returns the draw (resp. skip) count and sets it
    to zero, touching nothing else, when the state is [APPLIED]; in every
    other state it returns 0 and leaves the effect as it was; and a second
    call right after any first call returns 0. *)
Theorem execute_pays_out_once (e : CardEffect.t) :
  0 <= _draw_count e -> 0 <= _skip_count e ->
  (_state e = EffectState.APPLIED ->
     execute_draw e = (Return (_draw_count e), store_draw_count 0 e)
     /\ execute_skip e = (Return (_skip_count e), store_skip_count 0 e))
  /\ (_state e <> EffectState.APPLIED ->
     execute_draw e = (Return 0, e) /\ execute_skip e = (Return 0, e))
  /\ result execute_draw (after execute_draw e) = Return 0
  /\ result execute_skip (after execute_skip e) = Return 0.
Proof.
  intros Hd Hs. repeat apply conj.
  - intros Hst. split;
      [now apply execute_draw_applied | now apply execute_skip_applied].
  - apply execute_not_applied.
  - apply execute_draw_again.
  - apply execute_skip_again.
Qed.

(** An applied draw-two/skip-one effect pays 2 and 1, then nothing. *)
Lemma execute_pays_out_once_witness :
  let e := mk EffectState.APPLIED None 2 1 false false in
  execute_draw e = (Return 2, store_draw_count 0 e)
  /\ execute_skip e = (Return 1, store_skip_count 0 e)
  /\ result execute_draw (after execute_draw e) = Return 0.
Proof.
  intros e.
  destruct (execute_pays_out_once e) as (Happlied & _ & Hagain & _);
    [cbn; lia | cbn; lia |].
  destruct (Happlied eq_refl) as [Hdraw Hskip].
  split; [exact Hdraw | split; [exact Hskip | exact Hagain]].
Defined.
End EffectExecution.

(** ** Combining effects *)

Section EffectCombine.
Import CardEffect.

Lemma bind_return {A B} (m : Eff A) (k : A -> Eff B) (e e' : t) (x : A) :
  m e = (Return x, e') -> bind m k e = k x e'.
Proof. intros H. unfold bind. now rewrite H. Qed.

Lemma deref_eq (other : operand) (e : t) :
  deref other e = (Return (operand_value other e), e).
Proof. destruct other; reflexivity. Qed.

Lemma when_set_pending (c : bool) (e : t) :
  when c set_pending e =
  (Return tt, store_state (if c then to_pending (_state e) else _state e) e).
Proof. destruct c, e as [[] ? ? ? ? ?]; reflexivity. Qed.

Lemma set_color_change_some (c : CardColor.t) (e : t) :
  c <> CardColor.WILD ->
  set_color_change (Some c) e =
  (Return tt, store_color_change (Some c) (store_state (to_pending (_state e)) e)).
Proof. apply truthy_color_assignment. Qed.

Lemma set_draw_count_ok (n : Z) (e : t) :
  0 <= n ->
  set_draw_count n e =
  (Return tt,
   store_draw_count n
     (store_state (if 0 <? n then to_pending (_state e) else _state e) e)).
Proof.
  intros Hn. unfold set_draw_count.
  replace (n <? 0) with false by (symmetry; apply Z.ltb_ge; lia).
  destruct (0 <? n); destruct e as [[] ? ? ? ? ?]; reflexivity.
Qed.

Lemma set_skip_count_ok (n : Z) (e : t) :
  0 <= n ->
  set_skip_count n e =
  (Return tt,
   store_skip_count n
     (store_state (if 0 <? n then to_pending (_state e) else _state e) e)).
Proof.
  intros Hn. unfold set_skip_count.
  replace (n <? 0) with false by (symmetry; apply Z.ltb_ge; lia).
  destruct (0 <? n); destruct e as [[] ? ? ? ? ?]; reflexivity.
Qed.

Lemma when_set_reverse_direction (c : bool) (e : t) :
  when c (set_reverse_direction true) e =
  (Return tt,
   store_reverse_direction (_reverse_direction e || c)
     (store_state (if c then to_pending (_state e) else _state e) e)).
Proof. destruct c, e as [[] ? ? ? [] ?]; reflexivity. Qed.

Lemma when_set_stackable (c : bool) (e : t) :
  when c (set_stackable true) e =
  (Return tt, store_stackable (_stackable e || c) e).
Proof. destruct c, e as [? ? ? ? ? []]; reflexivity. Qed.

(** One statement of [combine], once the call before it has returned. *)
Ltac combine_step :=
  first
    [ rewrite (bind_return _ _ _ _ _ (deref_eq _ _))
    | rewrite (bind_return _ _ _ _ _ (when_set_pending _ _))
    | rewrite (bind_return _ _ _ _ _ (when_set_reverse_direction _ _))
    | rewrite (bind_return get _ _ _ _ eq_refl)
    | rewrite (bind_return (ret tt) _ _ _ _ eq_refl) ];
  cbn [operand_value _state _color_change _draw_count _skip_count
       _reverse_direction _stackable store_state store_color_change
       store_draw_count store_skip_count store_reverse_direction
       store_stackable].

(** The whole of [combine] on well-formed effects, as one record. *)
Lemma combine_ok (a : t) (other : operand) :
  wf a -> wf (operand_value other a) ->
  combine other a =
  (Return tt,
   mk (combined_state a (operand_value other a))
      (match _color_change (operand_value other a) with
       | Some c => Some c
       | None => _color_change a
       end)
      (_draw_count a + _draw_count (operand_value other a))
      (_skip_count a + _skip_count (operand_value other a))
      (_reverse_direction a || _reverse_direction (operand_value other a))
      (_stackable a || _stackable (operand_value other a))).
Proof.
  intros (Had & Has & Hac) (Hbd & Hbs & Hbc).
  unfold combine, combined_state.
  destruct a as [sa ca da ka ra ta].
  destruct other as [[sb cb db kb rb tb] |];
    cbn in Had, Has, Hac, Hbd, Hbs, Hbc; cbn [operand_value].
  - destruct cb as [c |]; repeat combine_step.
    + erewrite bind_return by (apply set_color_change_some; congruence).
      repeat combine_step.
      erewrite bind_return by (apply set_draw_count_ok; lia).
      repeat combine_step.
      erewrite bind_return by (apply set_skip_count_ok; lia).
      repeat combine_step.
      rewrite when_set_stackable. cbn.
      destruct sa, sb, (0 <? da + db), (0 <? ka + kb), rb; reflexivity.
    + erewrite bind_return by (apply set_draw_count_ok; lia).
      repeat combine_step.
      erewrite bind_return by (apply set_skip_count_ok; lia).
      repeat combine_step.
      rewrite when_set_stackable. cbn.
      destruct sa, sb, (0 <? da + db), (0 <? ka + kb), rb; reflexivity.
  - destruct ca as [c |]; repeat combine_step.
    + erewrite bind_return by (apply set_color_change_some; congruence).
      repeat combine_step.
      erewrite bind_return by (apply set_draw_count_ok; lia).
      repeat combine_step.
      erewrite bind_return by (apply set_skip_count_ok; lia).
      repeat combine_step.
      rewrite when_set_stackable. cbn.
      destruct sa, (0 <? da + da), (0 <? ka + ka), ra, ta; reflexivity.
    + erewrite bind_return by (apply set_draw_count_ok; lia).
      repeat combine_step.
      erewrite bind_return by (apply set_skip_count_ok; lia).
      repeat combine_step.
      rewrite when_set_stackable. cbn.
      destruct sa, (0 <? da + da), (0 <? ka + ka), ra, ta; reflexivity.
Qed.

Lemma to_pending_ge (s : EffectState.t) :
  EffectState.le EffectState.PENDING (to_pending s).
Proof. destruct s; unfold EffectState.le; cbn; lia. Qed.

(** C6: for well-formed effects [a] and [b] (counts not negative, colour
    change not [WILD]), where [b] is another object or [a] itself,
    [a.combine(b)] returns normally and leaves [a] with [b]'s colour change
    when [b] has one and its own otherwise, the sums of the draw and of the
    skip counts, the disjunctions of the reverse and of the stackable
    flags, and a state of at least [PENDING] whenever [b] was not in
    [NO_EFFECT]; two effects with a draw count of 2 combine to a draw count
    of 4 and a state of at least [PENDING]. *)
Theorem combine_merges (a b : CardEffect.t) (other : CardEffect.operand) :
  operand_value other a = b -> wf a -> wf b ->
  result (combine other) a = Return tt
  /\ _color_change (after (combine other) a) =
       match _color_change b with
       | Some c => Some c
       | None => _color_change a
       end
  /\ _draw_count (after (combine other) a) = _draw_count a + _draw_count b
  /\ _skip_count (after (combine other) a) = _skip_count a + _skip_count b
  /\ _reverse_direction (after (combine other) a) =
       _reverse_direction a || _reverse_direction b
  /\ _stackable (after (combine other) a) = _stackable a || _stackable b
  /\ _state (after (combine other) a) = combined_state a b
  /\ (_state b <> EffectState.NO_EFFECT ->
       EffectState.le EffectState.PENDING (_state (after (combine other) a)))
  /\ (_draw_count a = 2 -> _draw_count b = 2 ->
       _draw_count (after (combine other) a) = 4
       /\ EffectState.le EffectState.PENDING
            (_state (after (combine other) a))).
Proof.
  intros Hb Hwa Hwb. subst b. unfold result, after.
  rewrite (combine_ok a other Hwa Hwb). cbn [fst snd _state _color_change
    _draw_count _skip_count _reverse_direction _stackable].
  repeat apply conj; try reflexivity.
  - intros Hst. unfold combined_state.
    destruct (EffectState.eqb (_state (operand_value other a))
                EffectState.NO_EFFECT) eqn:Heq.
    + apply EffectState_eqb_eq in Heq. contradiction.
    + apply to_pending_ge.
  - intros Ha2 Hb2. unfold combined_state. rewrite Ha2, Hb2. split; [lia |].
    replace (0 <? 2 + 2) with true by reflexivity.
    rewrite !orb_true_r. cbn [orb]. apply to_pending_ge.
Qed.

(** Two pending draw-two effects stack to a pending draw of four. *)
Lemma combine_merges_witness :
  result (combine (Other draw_two_pending)) draw_two_pending = Return tt
  /\ _draw_count (after (combine (Other draw_two_pending)) draw_two_pending) = 4
  /\ EffectState.le EffectState.PENDING
       (_state (after (combine (Other draw_two_pending)) draw_two_pending)).
Proof.
  assert (wf draw_two_pending) as Hwf
    by (unfold wf; cbn; repeat split; [lia | lia | discriminate]).
  destruct (combine_merges draw_two_pending draw_two_pending
              (Other draw_two_pending) eq_refl Hwf Hwf)
    as (Hret & _ & _ & _ & _ & _ & _ & _ & Hfour).
  destruct (Hfour eq_refl eq_refl) as [Hdraw Hstate].
  split; [exact Hret | split; [exact Hdraw | exact Hstate]].
Defined.

(** The class invariant holds at construction and after every method. *)
Lemma wf_init : wf init.
Proof. unfold wf; cbn; repeat split; [lia | lia | discriminate]. Qed.

Lemma wf_run (c : call) (e : t) :
  wf e ->
  (forall other, c = Call_combine other -> wf (operand_value other e)) ->
  wf (run c e).
Proof.
  intros Hwf Hother. pose proof Hwf as (Hd & Hs & Hc).
  destruct c; cbn [run]; try exact Hwf.
  - destruct e as [[] ? ? ? ? ?]; exact Hwf.
  - destruct e as [[] ? ? ? ? ?]; exact Hwf.
  - destruct e as [[] ? ? ? ? ?]; exact Hwf.
  - destruct color as [col |].
    + destruct (CardColor.eqb col CardColor.WILD) eqn:Hw.
      * unfold set_color_change. rewrite Hw. exact Hwf.
      * assert (col <> CardColor.WILD) as Hne
          by (intros ->; discriminate Hw).
        unfold after. rewrite (set_color_change_some col e Hne).
        unfold wf; cbn. repeat split; [lia | lia | congruence].
    + unfold wf; cbn. repeat split; [lia | lia | discriminate].
  - destruct (Z.ltb_spec count 0) as [Hneg | Hpos].
    + unfold set_draw_count.
      replace (count <? 0) with true by (symmetry; apply Z.ltb_lt; lia).
      exact Hwf.
    + unfold after. rewrite (set_draw_count_ok count e Hpos).
      unfold wf; cbn. repeat split; assumption.
  - destruct (Z.ltb_spec count 0) as [Hneg | Hpos].
    + unfold set_skip_count.
      replace (count <? 0) with true by (symmetry; apply Z.ltb_lt; lia).
      exact Hwf.
    + unfold after. rewrite (set_skip_count_ok count e Hpos).
      unfold wf; cbn. repeat split; assumption.
  - destruct reverse, e as [[] ? ? ? ? ?]; exact Hwf.
  - unfold after. rewrite (combine_ok e other Hwf (Hother other eq_refl)).
    destruct (Hother other eq_refl) as (Hbd & Hbs & Hbc).
    unfold wf; cbn. repeat split; [lia | lia |].
    destruct (_color_change (operand_value other e)); assumption.
  - destruct e as [st col d s r k]. unfold execute_draw, is_applied.
    step_method.
    destruct (EffectState.eqb st EffectState.APPLIED && (0 <? d));
      [| exact Hwf].
    cbn in *. unfold wf; cbn. repeat split; [lia | lia | assumption].
  - destruct e as [st col d s r k]. unfold execute_skip, is_applied.
    step_method.
    destruct (EffectState.eqb st EffectState.APPLIED && (0 <? s));
      [| exact Hwf].
    cbn in *. unfold wf; cbn. repeat split; [lia | lia | assumption].
Qed.
End EffectCombine.

(** ** Card legality and the effects of a play *)

Section CardRules.
Import CardColor CardLabel.

Lemma constructed_is_wild (c : Card.t) :
  Card.constructed c ->
  Card.is_wild c = Card.label_in (Card.label c) Card.WILD_CARDS
  /\ (Card.is_wild c = true <-> Card.color c = CardColor.WILD).
Proof.
  intros (col & lab & Hinit). unfold Card.init in Hinit.
  destruct col, lab; cbv in Hinit; inversion Hinit; subst; cbv;
    (split; [reflexivity | split; congruence]).
Qed.

(** [x or y] keeps [x] unless it is [None] or [RED]. *)
Lemma color_or_spec (x : option CardColor.t) (y : CardColor.t) :
  color_or x y =
  match x with
  | Some RED | None => y
  | Some c => c
  end.
Proof. destruct x as [[] |]; reflexivity. Qed.

(** What [can_play_on] computes, for every input. *)
Lemma can_play_on_spec (c top : Card.t) (active : option CardColor.t) :
  Card.can_play_on c top active = true <->
  Card.is_wild c = true
  \/ Card.color c = color_or active (Card.color top)
  \/ (Card.label c = Card.label top /\ Card.is_wild top = false).
Proof.
  unfold Card.can_play_on.
  destruct (Card.is_wild c); [split; auto |].
  destruct (CardColor.eqb (Card.color c) (color_or active (Card.color top)))
    eqn:Hcol.
  - apply CardColor_eqb_eq in Hcol. split; auto.
  - assert (Card.color c <> color_or active (Card.color top)) as Hne
      by (intros H; apply CardColor_eqb_eq in H; congruence).
    destruct (CardLabel.eqb (Card.label c) (Card.label top)) eqn:Hlab.
    + apply CardLabel_eqb_eq in Hlab.
      destruct (Card.is_wild top); cbn; split; auto.
      intros [H | [H | [_ H]]]; congruence.
    + assert (Card.label c <> Card.label top) as Hnl
        by (intros H; apply CardLabel_eqb_eq in H; congruence).
      cbn. split; [discriminate |].
      intros [H | [H | [H _]]]; congruence.
Qed.

(** With any active colour but [RED], and with none, the rule is the one
    the specification gives. *)
Lemma can_play_on_unless_red (c top : Card.t) (active : option CardColor.t) :
  active <> Some RED ->
  Card.can_play_on c top active = true <->
  Card.is_wild c = true
  \/ Card.color c = match active with
                    | Some a => a
                    | None => Card.color top
                    end
  \/ (Card.label c = Card.label top /\ Card.is_wild top = false).
Proof.
  intros Hred. rewrite can_play_on_spec, color_or_spec.
  destruct active as [[] |]; try reflexivity. congruence.
Qed.

Lemma can_play_on_unless_red_witness :
  Card.can_play_on red_five blue_seven (Some GREEN) = true <->
  Card.is_wild red_five = true
  \/ Card.color red_five = GREEN
  \/ (Card.label red_five = Card.label blue_seven
      /\ Card.is_wild blue_seven = false).
Proof.
  apply (can_play_on_unless_red red_five blue_seven (Some GREEN)).
  discriminate.
Defined.

(** C1: on the code, an active colour of [RED] is ignored.  A BLUE 5 on a
    BLUE 7 with active colour [RED] is accepted through the top card's own
    colour, and a RED 5 on the same card with active colour [RED] is
    refused. *)
Theorem can_play_on_ignores_active_red :
  Card.init BLUE FIVE = Return blue_five
  /\ Card.init BLUE SEVEN = Return blue_seven
  /\ Card.init RED FIVE = Return red_five
  /\ Card.can_play_on blue_five blue_seven (Some RED) = true
  /\ Card.can_play_on red_five blue_seven (Some RED) = false
  /\ (forall c top, Card.can_play_on c top (Some RED)
                    = Card.can_play_on c top None).
Proof. repeat split. Qed.

(** What [play] computes, for every card and chosen colour. *)
Lemma play_spec (c : Card.t) (new_color : option CardColor.t) :
  Card.play c new_color =
  if Card.is_wild c
     && match new_color with Some CardColor.WILD => true | _ => false end
  then Raise ValueError
  else Return
         {| Card.color_change :=
              if Card.is_wild c && color_truthy new_color
              then new_color else None;
            Card.draw_cards :=
              match Card.label c with
              | DRAW_TWO => 2
              | WILD_DRAW_FOUR => 4
              | _ => 0
              end;
            Card.skip_turn := CardLabel.eqb (Card.label c) SKIP;
            Card.reverse := CardLabel.eqb (Card.label c) REVERSE |}.
Proof.
  destruct c as [col lab [|]], new_color as [[] |], lab; reflexivity.
Qed.

(** Everything the specification says of [play] except the colour [RED]:
    a wild card played with [BLUE], [GREEN] or [YELLOW] records that
    colour, with [WILD] it raises; the label decides the rest; a number
    card built by the constructor has no effect. *)
Lemma play_unless_red (c : Card.t) (new_color : option CardColor.t) :
  Card.constructed c ->
  (forall col, Card.is_wild c = true -> new_color = Some col ->
     col <> RED -> col <> CardColor.WILD ->
     exists d, Card.play c new_color = Return d
               /\ Card.color_change d = Some col)
  /\ (Card.is_wild c = true -> new_color = Some CardColor.WILD ->
      Card.play c new_color = Raise ValueError)
  /\ (forall d, Card.play c new_color = Return d ->
      (Card.label c = DRAW_TWO -> Card.draw_cards d = 2)
      /\ (Card.label c = WILD_DRAW_FOUR -> Card.draw_cards d = 4)
      /\ (Card.label c = SKIP -> Card.skip_turn d = true)
      /\ (Card.label c = REVERSE -> Card.reverse d = true))
  /\ (Card.is_number_card c = true ->
      Card.play c new_color = Return Card.no_effects).
Proof.
  intros Hc. destruct (constructed_is_wild c Hc) as [Hw _].
  repeat apply conj.
  - intros col Hwild -> Hred Hnw. rewrite play_spec, Hwild.
    destruct col; try congruence; eexists; split; reflexivity.
  - intros Hwild ->. rewrite play_spec, Hwild. reflexivity.
  - intros d. rewrite play_spec.
    destruct (Card.is_wild c
              && match new_color with
                 | Some CardColor.WILD => true
                 | _ => false
                 end); [discriminate |].
    intros [= <-]. cbn. repeat split; intros ->; reflexivity.
  - intros Hnum. rewrite play_spec, Hw.
    destruct c as [col lab w]. unfold Card.is_number_card in Hnum.
    cbn in *. destruct lab; try discriminate Hnum; reflexivity.
Qed.

Lemma play_unless_red_witness :
  exists d, Card.play wild_draw_four (Some GREEN) = Return d
            /\ Card.color_change d = Some GREEN /\ Card.draw_cards d = 4.
Proof.
  assert (Card.constructed wild_draw_four) as Hc
    by (exists CardColor.WILD, WILD_DRAW_FOUR; reflexivity).
  destruct (play_unless_red wild_draw_four (Some GREEN) Hc)
    as (Hcol & _ & Hlab & _).
  destruct (Hcol GREEN eq_refl eq_refl) as (d & Hd & Hchange);
    [discriminate | discriminate |].
  exists d. split; [exact Hd | split; [exact Hchange |]].
  now apply (Hlab d Hd).
Defined.

(** C4: on the code, a wild card played with the colour [RED] records no
    colour change at all: [WILD] with [RED] returns the empty effects, and
    [WILD_DRAW_FOUR] with [RED] returns only the draw of four. *)
Theorem play_wild_choosing_red :
  Card.init CardColor.WILD CardLabel.WILD = Return wild_card
  /\ Card.init CardColor.WILD WILD_DRAW_FOUR = Return wild_draw_four
  /\ Card.play wild_card (Some RED) = Return Card.no_effects
  /\ Card.play wild_draw_four (Some RED)
     = Return (Card.mk_effects None 4 false false)
  /\ (forall c, Card.play c (Some RED) = Card.play c None).
Proof.
  repeat split. intros c. rewrite !play_spec.
  destruct (Card.is_wild c); reflexivity.
Qed.
End CardRules.

(** ** The deck *)

Section DeckFacts.
Import Deck.

Lemma for_each_appendleft (cards : list Card.t) (d : t) :
  for_each cards appendleft d = (Return tt, mk (rev cards ++ _cards d)).
Proof.
  revert d. induction cards as [| card rest IH]; intros d.
  - destruct d; reflexivity.
  - cbn [for_each]. unfold bind at 1. unfold appendleft at 1, modify.
    rewrite IH. cbn [_cards rev]. now rewrite <- app_assoc.
Qed.

Lemma add_cards_to_top_eq (cards : list Card.t) (d : t) :
  add_cards_to_top cards d = (Return tt, mk (cards ++ _cards d)).
Proof.
  unfold add_cards_to_top. now rewrite for_each_appendleft, rev_involutive.
Qed.

Lemma popleft_each_app (front back : list Card.t) :
  popleft_each (length front) (mk (front ++ back)) = (Return front, mk back).
Proof.
  induction front as [| c front IH]; [reflexivity |].
  cbn [length popleft_each app]. unfold bind at 1.
  unfold popleft at 1. step_method. fold (popleft_each (length front)).
  unfold bind in IH |- *. now rewrite IH.
Qed.

(** Drawing exactly the cards at the head of a deck. *)
Lemma draw_front (front back : list Card.t) :
  front <> [] ->
  draw (Z.of_nat (length front)) (mk (front ++ back))
  = (Return (Some front), mk back).
Proof.
  intros Hne. destruct front as [| c front]; [contradiction |].
  unfold draw, is_empty, len. unfold bind at 1 2. unfold get at 1, ret at 1.
  cbv beta iota. cbn [_cards app].
  replace (Z.of_nat (length (c :: front ++ back)) =? 0) with false
    by (symmetry; apply Z.eqb_neq; cbn [length]; lia).
  unfold bind at 1. unfold get at 1. cbv beta iota.
  replace (Z.of_nat (length (c :: front)) <? 0) with false
    by (symmetry; apply Z.ltb_ge; lia).
  cbn [_cards].
  replace (Z.of_nat (length (c :: front ++ back))
           <? Z.of_nat (length (c :: front))) with false
    by (symmetry; apply Z.ltb_ge; cbn [length]; rewrite length_app; lia).
  rewrite Nat2Z.id. unfold bind.
  change (c :: front ++ back) with ((c :: front) ++ back).
  now rewrite popleft_each_app.
Qed.

(** C10: after [add_cards_to_top(cards)] with a non-empty list, the deck
    holds [cards], in their order, ahead of what it held; drawing
    [len(cards)] cards returns exactly [cards] and gives back the deck as
    it was, and a single draw returns [cards[0]]. *)
Theorem add_cards_to_top_draw_order (d : Deck.t) (cards : list Card.t) :
  cards <> [] ->
  add_cards_to_top cards d = (Return tt, mk (cards ++ _cards d))
  /\ draw (Z.of_nat (length cards)) (after (add_cards_to_top cards) d)
     = (Return (Some cards), d)
  /\ exists first rest,
       cards = first :: rest
       /\ draw 1 (after (add_cards_to_top cards) d)
          = (Return (Some [first]), mk (rest ++ _cards d)).
Proof.
  intros Hne. unfold after. rewrite add_cards_to_top_eq. cbn [snd].
  split; [reflexivity | split].
  - rewrite (draw_front cards (_cards d) Hne). now destruct d.
  - destruct cards as [| first rest]; [contradiction |].
    exists first, rest. split; [reflexivity |].
    apply (draw_front [first] (rest ++ _cards d)). discriminate.
Qed.

Lemma add_cards_to_top_draw_order_witness :
  draw 2 (after (add_cards_to_top [red_five; wild_card]) (mk [blue_seven]))
  = (Return (Some [red_five; wild_card]), mk [blue_seven]).
Proof.
  apply (add_cards_to_top_draw_order (mk [blue_seven]) [red_five; wild_card]).
  discriminate.
Defined.

(** C3: on the code, [draw] on an empty deck raises nothing: whatever the
    count, positive or negative, it returns [None] and leaves the deck
    empty.  A deck is emptied by [clear()], and by drawing every card it
    holds; in both cases the next [draw] returns [None]. *)
Theorem draw_on_empty_deck_returns_none (d : Deck.t) (count : Z) :
  draw count (mk []) = (Return None, mk [])
  /\ clear d = (Return tt, mk [])
  /\ draw count (after clear d) = (Return None, after clear d)
  /\ (_cards d <> [] ->
      draw (len d) d = (Return (Some (_cards d)), mk [])
      /\ draw count (after (draw (len d)) d)
         = (Return None, after (draw (len d)) d)).
Proof.
  repeat match goal with |- _ /\ _ => split end; try reflexivity.
  intros Hne.
  assert (draw (len d) d = (Return (Some (_cards d)), mk [])) as Hall.
  { destruct d as [cards]. unfold len. cbn [_cards] in *.
    rewrite <- (app_nil_r cards) at 2. now apply draw_front. }
  split; [exact Hall |]. unfold after. rewrite Hall. reflexivity.
Qed.

Lemma draw_raises (d : Deck.t) (count : Z) :
  _cards d <> [] -> count < 0 \/ len d < count ->
  draw count d = (Raise ValueError, d).
Proof.
  intros Hne Hrange. destruct d as [[| c cards]]; [contradiction |].
  unfold draw, is_empty. unfold bind at 1 2. unfold get at 1, ret at 1.
  cbv beta iota.
  replace (len (mk (c :: cards)) =? 0) with false
    by (symmetry; apply Z.eqb_neq; unfold len; cbn [_cards length]; lia).
  unfold bind at 1. unfold get at 1. cbv beta iota.
  destruct (Z.ltb_spec count 0) as [Hneg | Hpos]; [reflexivity |].
  destruct Hrange as [Hneg | Hbig]; [lia |].
  replace (len (mk (c :: cards)) <? count) with true
    by (symmetry; apply Z.ltb_lt; exact Hbig).
  reflexivity.
Qed.


(** On a deck that holds a card, [draw] raises [ValueError] for a negative
    count and for a count above the size, and the deck is untouched. *)
Lemma draw_out_of_range (d : Deck.t) (count : Z) :
  _cards d <> [] -> count < 0 \/ len d < count ->
  draw count d = (Raise ValueError, d).
Proof. apply draw_raises. Qed.

Lemma draw_out_of_range_witness :
  draw 3 (mk [red_five; blue_seven]) = (Raise ValueError, mk [red_five; blue_seven])
  /\ draw (-1) (mk [red_five]) = (Raise ValueError, mk [red_five]).
Proof.
  split.
  - apply (draw_out_of_range (mk [red_five; blue_seven]) 3);
      [discriminate | right; reflexivity].
  - apply (draw_out_of_range (mk [red_five]) (-1));
      [discriminate | left; reflexivity].
Defined.
End DeckFacts.

(** ** The player contract *)

Section PlayerFacts.
Import Player.

Lemma list_remove_first (card : Card.t) (cards : list Card.t) :
  contains card cards = true ->
  exists before held rest,
    cards = before ++ held :: rest
    /\ Card.eqb held card = true
    /\ contains card before = false
    /\ list_remove card cards = Some (before ++ rest).
Proof.
  induction cards as [| c cards IH]; [discriminate |].
  cbn [contains existsb list_remove].
  destruct (Card.eqb c card) eqn:Heq.
  - intros _. exists [], c, cards. repeat split; assumption.
  - cbn [orb]. intros Hin.
    destruct (IH Hin) as (before & held & rest & -> & Hheld & Hbefore & Hrm).
    exists (c :: before), held, rest. repeat split; try assumption.
    + cbn [contains existsb]. rewrite Heq. exact Hbefore.
    + rewrite Hrm. reflexivity.
Qed.

(** C8, as the code has it: [play_card] raises [ValueError] and leaves the
    player untouched when no card of the hand equals [card]; otherwise it
    removes the first card of the hand equal to [card] and no other,
    stores the action it returns in [_last_action], leaves [name],
    [player_id], [has_said_uno] and [score] alone, and returns the action
    of playing [card] with [new_color] (not a draw, no UNO call). *)
Theorem play_card_spec (p : Player.t) (card : Card.t)
  (new_color : option CardColor.t) :
  (contains card (hand p) = false ->
   play_card card new_color p = (Raise ValueError, p))
  /\ (contains card (hand p) = true ->
      exists before held rest,
        hand p = before ++ held :: rest
        /\ Card.eqb held card = true
        /\ contains card before = false
        /\ play_card card new_color p
           = (Return (PlayerAction.mk (Some card) new_color false false),
              mk (name p) (player_id p) (before ++ rest) (has_said_uno p)
                 (score p)
                 (Some (PlayerAction.mk (Some card) new_color false false)))).
Proof.
  split; intros Hin.
  - unfold play_card. unfold bind at 1. unfold get at 1. cbv beta iota.
    rewrite Hin. reflexivity.
  - destruct (list_remove_first card (hand p) Hin)
      as (before & held & rest & Hhand & Hheld & Hbefore & Hrm).
    exists before, held, rest. repeat split; try assumption.
    unfold play_card. unfold bind at 1. unfold get at 1. cbv beta iota.
    rewrite Hin. cbn [negb]. unfold __remove_card_from_hand.
    step_method. rewrite Hrm. reflexivity.
Qed.

Lemma play_card_spec_witness :
  play_card wild_card None alice = (Raise ValueError, alice)
  /\ exists before held rest,
       hand alice = before ++ held :: rest
       /\ Card.eqb held red_five = true
       /\ contains red_five before = false
       /\ play_card red_five None alice
          = (Return (PlayerAction.mk (Some red_five) None false false),
             mk (name alice) (player_id alice) (before ++ rest)
                (has_said_uno alice) (score alice)
                (Some (PlayerAction.mk (Some red_five) None false false))).
Proof.
  split.
  - apply (proj1 (play_card_spec alice wild_card None)). reflexivity.
  - apply (proj2 (play_card_spec alice red_five None)). reflexivity.
Defined.

(** C8 as stated fails: after a successful [play_card] the player differs
    from the one before by more than the hand, since [_last_action] has
    been set. *)
Lemma play_card_sets_last_action :
  contains red_five (hand alice) = true
  /\ _last_action alice = None
  /\ _last_action (after (play_card red_five None) alice)
     = Some (PlayerAction.mk (Some red_five) None false false)
  /\ after (play_card red_five None) alice <> store_hand [blue_seven] alice.
Proof. repeat split. discriminate. Qed.

(** C9, as the code has it: [is_valid] holds exactly for a draw that names
    neither a card nor a colour, and for a non-draw that names a card,
    whatever the colour and whether or not the card is wild. *)
Theorem is_valid_spec (a : PlayerAction.t) :
  PlayerAction.is_valid a = true <->
  (PlayerAction.draw_card a = true
   /\ PlayerAction.card a = None /\ PlayerAction.new_color a = None)
  \/ (PlayerAction.draw_card a = false /\ PlayerAction.card a <> None).
Proof.
  destruct a as [[c |] [col |] [|] uno]; cbn; split;
    solve [ intros; discriminate
          | intros _; left; repeat split
          | intros _; right; split; [reflexivity | discriminate]
          | intros [(H1 & H2 & H3) | (H1 & H2)]; congruence
          | reflexivity ].
Qed.

(** C9 as stated fails: a play of the non-wild RED 5 naming the colour
    [BLUE] is valid for the code, and so is a play of a wild card naming
    no colour; the stated rule refuses both. *)
Lemma is_valid_ignores_color :
  PlayerAction.is_valid
    (PlayerAction.mk (Some red_five) (Some CardColor.BLUE) false false) = true
  /\ claimed_valid
       (PlayerAction.mk (Some red_five) (Some CardColor.BLUE) false false)
     = false
  /\ PlayerAction.is_valid (PlayerAction.mk (Some wild_card) None false false)
     = true
  /\ claimed_valid (PlayerAction.mk (Some wild_card) None false false) = false.
Proof. repeat split. Qed.
End PlayerFacts.


(** ** Constructing cards *)

Section CardConstruction.
Import CardColor CardLabel.

Lemma init_cases (color : CardColor.t) (label : CardLabel.t) :
  Card.init color label
  = if Bool.eqb (Card.label_in label Card.WILD_CARDS)
         (CardColor.eqb color CardColor.WILD)
    then Return (Card.mk color label (Card.label_in label Card.WILD_CARDS))
    else Raise ValueError.
Proof. destruct color, label; reflexivity. Qed.

Lemma constructed_eqb_eq (a b : Card.t) :
  Card.constructed a -> Card.constructed b ->
  Card.eqb a b = true -> a = b.
Proof.
  intros (ca & la & Ha) (cb & lb & Hb) Heq.
  rewrite init_cases in Ha, Hb.
  destruct (Bool.eqb (Card.label_in la Card.WILD_CARDS)
              (CardColor.eqb ca CardColor.WILD)); [| discriminate].
  destruct (Bool.eqb (Card.label_in lb Card.WILD_CARDS)
              (CardColor.eqb cb CardColor.WILD)); [| discriminate].
  injection Ha as <-. injection Hb as <-.
  unfold Card.eqb in Heq. cbn in Heq.
  apply andb_true_iff in Heq as [Hc Hl].
  apply CardColor_eqb_eq in Hc. apply CardLabel_eqb_eq in Hl.
  now subst.
Qed.

(** The constructor accepts a colour and a label exactly when the label is
    [WILD] or [WILD_DRAW_FOUR] and the colour is [WILD], or neither is the
    case; it then returns the card of that colour and label, whose
    [is_wild] says the same as its colour; otherwise it raises
    [ValueError]. *)
Theorem card_constructor_validates (color : CardColor.t) (label : CardLabel.t) :
  ((exists c, Card.init color label = Return c) <->
   (color = CardColor.WILD <->
    label = CardLabel.WILD \/ label = WILD_DRAW_FOUR))
  /\ (forall c, Card.init color label = Return c ->
      Card.color c = color /\ Card.label c = label
      /\ (Card.is_wild c = true <-> color = CardColor.WILD))
  /\ ((exists c, Card.init color label = Return c)
      \/ Card.init color label = Raise ValueError).
Proof.
  split; [| split].
  - rewrite init_cases.
    destruct color, label; cbn;
      (split;
      [ intros [c0 Hc]; try discriminate Hc;
        split; intros X; try discriminate X;
        try (destruct X as [X | X]; discriminate X); auto
      | intros [H1 H2];
        first [ eexists; reflexivity
              | exfalso;
                first [ discriminate (H2 (or_introl eq_refl))
                      | discriminate (H2 (or_intror eq_refl))
                      | destruct (H1 eq_refl) as [X | X]; discriminate X ] ] ]).
  - intros c. destruct color, label; cbv; intros H; inversion H; subst;
      cbv; repeat split; congruence.
  - destruct color, label; cbv;
      solve [left; eexists; reflexivity | right; reflexivity].
Qed.

(** [create_number_card] returns, for a number from 0 to 9 and a colour
    other than [WILD], the non-wild number card of that colour whose label
    value and points are the number; for any other number, and for the
    colour [WILD], it raises [ValueError]. *)
Theorem create_number_card_spec (color : CardColor.t) (number : Z) :
  (0 <= number <= 9 -> color <> CardColor.WILD ->
   exists c,
     CardFactory.create_number_card color number = Return c
     /\ Card.color c = color
     /\ CardLabel.value (Card.label c) = number
     /\ Card.is_number_card c = true /\ Card.is_wild c = false
     /\ Card.points c = number)
  /\ (number < 0 \/ 9 < number \/ color = CardColor.WILD ->
      CardFactory.create_number_card color number = Raise ValueError).
Proof.
  split.
  - intros Hn Hc.
    assert (number = 0 \/ number = 1 \/ number = 2 \/ number = 3
            \/ number = 4 \/ number = 5 \/ number = 6 \/ number = 7
            \/ number = 8 \/ number = 9) as Hcases by lia.
    destruct color; try congruence;
      repeat (destruct Hcases as [-> | Hcases]); try subst number;
      eexists; repeat split.
  - intros Hbad. unfold CardFactory.create_number_card.
    destruct ((0 <=? number) && (number <=? 9)) eqn:Hrange; [| reflexivity].
    apply andb_true_iff in Hrange as [Hlo Hhi].
    apply Z.leb_le in Hlo, Hhi.
    destruct Hbad as [Hneg | [Hbig | ->]]; [lia | lia |].
    assert (number = 0 \/ number = 1 \/ number = 2 \/ number = 3
            \/ number = 4 \/ number = 5 \/ number = 6 \/ number = 7
            \/ number = 8 \/ number = 9) as Hcases by lia.
    repeat (destruct Hcases as [-> | Hcases]); try subst number; reflexivity.
Qed.

Lemma create_number_card_spec_witness :
  exists c,
    CardFactory.create_number_card BLUE 7 = Return c
    /\ Card.color c = BLUE
    /\ CardLabel.value (Card.label c) = 7
    /\ Card.is_number_card c = true /\ Card.is_wild c = false
    /\ Card.points c = 7.
Proof.
  apply (proj1 (create_number_card_spec BLUE 7)); [lia | discriminate].
Defined.

(** [create_action_card] returns a card exactly for [SKIP], [REVERSE] or
    [DRAW_TWO] with a colour other than [WILD], and the card is worth 20
    points; [create_wild_card] returns a card exactly for [WILD] or
    [WILD_DRAW_FOUR], and the card has the colour [WILD], is wild and is
    worth 50 points.  In every other case they raise [ValueError]. *)
Theorem action_and_wild_factories (color : CardColor.t) (label : CardLabel.t) :
  (((label = SKIP \/ label = REVERSE \/ label = DRAW_TWO)
    /\ color <> CardColor.WILD) ->
   exists c,
     CardFactory.create_action_card color label = Return c
     /\ Card.color c = color /\ Card.label c = label
     /\ Card.is_action_card c = true /\ Card.is_wild c = false
     /\ Card.points c = 20)
  /\ (~ ((label = SKIP \/ label = REVERSE \/ label = DRAW_TWO)
         /\ color <> CardColor.WILD) ->
      CardFactory.create_action_card color label = Raise ValueError)
  /\ (label = CardLabel.WILD \/ label = WILD_DRAW_FOUR ->
      exists c,
        CardFactory.create_wild_card label = Return c
        /\ Card.color c = CardColor.WILD /\ Card.label c = label
        /\ Card.is_wild c = true /\ Card.points c = 50)
  /\ (~ (label = CardLabel.WILD \/ label = WILD_DRAW_FOUR) ->
      CardFactory.create_wild_card label = Raise ValueError).
Proof.
  repeat apply conj.
  - intros [[-> | [-> | ->]] Hc]; destruct color; try congruence;
      eexists; repeat split.
  - intros Hnot. destruct color, label; try reflexivity;
      exfalso; apply Hnot; split; solve [auto | discriminate].
  - intros [-> | ->]; eexists; repeat split.
  - intros Hnot. destruct label; try reflexivity;
      exfalso; apply Hnot; auto.
Qed.

Lemma action_and_wild_factories_witness :
  (exists c,
     CardFactory.create_action_card GREEN SKIP = Return c
     /\ Card.color c = GREEN /\ Card.label c = SKIP
     /\ Card.is_action_card c = true /\ Card.is_wild c = false
     /\ Card.points c = 20)
  /\ CardFactory.create_action_card GREEN FIVE = Raise ValueError
  /\ CardFactory.create_wild_card SKIP = Raise ValueError.
Proof.
  destruct (action_and_wild_factories GREEN SKIP) as (Hok & _ & _ & Hwild).
  destruct (action_and_wild_factories GREEN FIVE) as (_ & Hbad & _ & _).
  split; [| split].
  - apply Hok. split; [left; reflexivity | discriminate].
  - apply Hbad. intros [[H | [H | H]] _]; discriminate H.
  - apply Hwild. intros [H | H]; discriminate H.
Defined.

Lemma constructed_kind (c : Card.t) :
  Card.constructed c ->
  (Card.is_number_card c = true /\ Card.is_action_card c = false
   /\ Card.is_wild c = false
   /\ Card.points c = CardLabel.value (Card.label c)
   /\ 0 <= Card.points c <= 9)
  \/ (Card.is_number_card c = false /\ Card.is_action_card c = true
      /\ Card.is_wild c = false /\ Card.points c = 20)
  \/ (Card.is_number_card c = false /\ Card.is_action_card c = false
      /\ Card.is_wild c = true /\ Card.points c = 50).
Proof.
  intros (color & label & Hinit).
  destruct color, label; cbv in Hinit; inversion Hinit; subst; cbv;
    solve [ left; repeat split; congruence
          | right; left; repeat split
          | right; right; repeat split ].
Qed.


(** A card built by the constructor is of exactly one kind: a number card
    worth its face value (0 to 9), an action card worth 20, or a wild card
    worth 50. *)
Theorem constructed_card_points (c : Card.t) :
  Card.constructed c ->
  (Card.is_number_card c = true /\ Card.is_action_card c = false
   /\ Card.is_wild c = false
   /\ Card.points c = CardLabel.value (Card.label c)
   /\ 0 <= Card.points c <= 9)
  \/ (Card.is_number_card c = false /\ Card.is_action_card c = true
      /\ Card.is_wild c = false /\ Card.points c = 20)
  \/ (Card.is_number_card c = false /\ Card.is_action_card c = false
      /\ Card.is_wild c = true /\ Card.points c = 50).
Proof. apply constructed_kind. Qed.

Lemma constructed_card_points_witness :
  Card.points wild_draw_four = 50 /\ Card.points blue_seven = 7.
Proof.
  assert (Card.constructed wild_draw_four) as Hw
    by (exists CardColor.WILD, WILD_DRAW_FOUR; reflexivity).
  assert (Card.constructed blue_seven) as Hb
    by (exists BLUE, SEVEN; reflexivity).
  split.
  - destruct (constructed_card_points wild_draw_four Hw)
      as [(H & _) | [(_ & H & _) | (_ & _ & _ & H)]];
      [discriminate H | discriminate H | exact H].
  - destruct (constructed_card_points blue_seven Hb)
      as [(_ & _ & _ & H & _) | [(_ & H & _) | (_ & _ & H & _)]];
      [exact H | discriminate H | discriminate H].
Defined.

(** [__eq__] and [__lt__] order the cards: [==] is an equivalence that
    holds exactly when colour and label agree, [<] is irreflexive and
    transitive, and of [a < b], [a == b], [b < a] exactly one holds. *)
Theorem card_order_is_total (a b c : Card.t) :
  Card.eqb a a = true
  /\ Card.eqb a b = Card.eqb b a
  /\ (Card.eqb a b = true <->
      Card.color a = Card.color b /\ Card.label a = Card.label b)
  /\ Card.ltb a a = false
  /\ (Card.ltb a b = true -> Card.ltb b c = true -> Card.ltb a c = true)
  /\ ((Card.ltb a b = true /\ Card.eqb a b = false /\ Card.ltb b a = false)
      \/ (Card.ltb a b = false /\ Card.eqb a b = true /\ Card.ltb b a = false)
      \/ (Card.ltb a b = false /\ Card.eqb a b = false /\ Card.ltb b a = true)).
Proof.
  destruct a as [ca la wa], b as [cb lb wb], c as [cc lc wc].
  unfold Card.eqb, Card.ltb, Card.color, Card.label; cbn.
  repeat match goal with |- _ /\ _ => split end.
  - now rewrite CardColor_eqb_refl, CardLabel_eqb_refl.
  - destruct ca, cb, la, lb; reflexivity.
  - rewrite andb_true_iff, CardColor_eqb_eq, CardLabel_eqb_eq. reflexivity.
  - rewrite CardColor_eqb_refl. apply Z.ltb_irrefl.
  - destruct ca, cb, cc; cbn; try discriminate; try reflexivity;
      rewrite !Z.ltb_lt; lia.
  - destruct ca, cb; cbn;
      try (right; right; repeat split; reflexivity);
      try (left; repeat split; reflexivity);
      destruct la, lb; cbn;
      solve [ left; repeat split | right; left; repeat split
            | right; right; repeat split ].
Qed.
End CardConstruction.

(** ** Drawing, peeking, adding and rotating *)

Section DeckOperations.
Import Deck.

Lemma draw_in_range (d : Deck.t) (count : Z) :
  _cards d <> [] -> 0 <= count <= len d ->
  draw count d
  = (Return (Some (firstn (Z.to_nat count) (_cards d))),
     mk (skipn (Z.to_nat count) (_cards d))).
Proof.
  intros Hne Hrange. destruct d as [cards]. unfold len in Hrange.
  cbn [_cards] in *.
  unfold draw, is_empty. unfold bind at 1 2. unfold get at 1, ret at 1.
  cbv beta iota.
  replace (len (mk cards) =? 0) with false
    by (symmetry; apply Z.eqb_neq; unfold len; cbn [_cards];
        destruct cards; [contradiction | cbn [length]; lia]).
  unfold bind at 1. unfold get at 1. cbv beta iota.
  replace (count <? 0) with false by (symmetry; apply Z.ltb_ge; lia).
  replace (len (mk cards) <? count) with false
    by (symmetry; apply Z.ltb_ge; unfold len; cbn [_cards]; lia).
  unfold bind.
  rewrite <- (firstn_skipn (Z.to_nat count) cards) at 1.
  replace (Z.to_nat count)
    with (length (firstn (Z.to_nat count) cards)) at 1
    by (apply firstn_length_le; lia).
  now rewrite popleft_each_app.
Qed.

(** On a deck holding a card, [draw(count)] with [0 <= count <= size]
    returns the first [count] cards in order and leaves the others; no
    card is lost or repeated, the size drops by [count], and putting the
    drawn cards back with [add_cards_to_top] restores the deck. *)
Theorem draw_takes_the_head (d : Deck.t) (count : Z) :
  _cards d <> [] -> 0 <= count <= len d ->
  exists drawn rest,
    draw count d = (Return (Some drawn), mk rest)
    /\ _cards d = drawn ++ rest
    /\ Z.of_nat (length drawn) = count
    /\ len (mk rest) = len d - count
    /\ add_cards_to_top drawn (mk rest) = (Return tt, d).
Proof.
  intros Hne Hrange.
  exists (firstn (Z.to_nat count) (_cards d)),
         (skipn (Z.to_nat count) (_cards d)).
  unfold len in *. cbn [_cards].
  repeat match goal with |- _ /\ _ => split end.
  - now apply draw_in_range.
  - now rewrite firstn_skipn.
  - rewrite firstn_length_le by lia. lia.
  - rewrite length_skipn. lia.
  - rewrite add_cards_to_top_eq. cbn [_cards]. rewrite firstn_skipn.
    now destruct d.
Qed.

Lemma draw_takes_the_head_witness :
  exists drawn rest,
    draw 2 (mk [red_five; blue_seven; wild_card]) = (Return (Some drawn), mk rest)
    /\ [red_five; blue_seven; wild_card] = drawn ++ rest
    /\ Z.of_nat (length drawn) = 2
    /\ len (mk rest) = 3 - 2
    /\ add_cards_to_top drawn (mk rest)
       = (Return tt, mk [red_five; blue_seven; wild_card]).
Proof.
  apply (draw_takes_the_head (mk [red_five; blue_seven; wild_card]) 2).
  - discriminate.
  - unfold len; cbn; lia.
Defined.

(** [peek] never changes the deck.  With [0 <= count <= size] it returns
    the first [count] cards, also on an empty deck (where [draw] returns
    [None]); otherwise it raises [ValueError].  Whatever list [draw]
    returns, [peek] returns it beforehand. *)
Theorem peek_is_read_only (d : Deck.t) (count : Z) :
  after (peek count) d = d
  /\ (0 <= count <= len d ->
      peek count d = (Return (firstn (Z.to_nat count) (_cards d)), d))
  /\ (count < 0 \/ len d < count -> peek count d = (Raise ValueError, d))
  /\ (forall drawn d', draw count d = (Return (Some drawn), d') ->
      peek count d = (Return drawn, d))
  /\ peek 0 (mk []) = (Return [], mk [])
  /\ draw 0 (mk []) = (Return None, mk []).
Proof.
  assert (forall k, 0 <= k <= len d ->
            peek k d = (Return (firstn (Z.to_nat k) (_cards d)), d)) as Hin.
  { intros k Hk. unfold peek. unfold bind, get. cbv beta iota.
    replace (k <? 0) with false by (symmetry; apply Z.ltb_ge; lia).
    replace (len d <? k) with false by (symmetry; apply Z.ltb_ge; lia).
    reflexivity. }
  assert (count < 0 \/ len d < count -> peek count d = (Raise ValueError, d))
    as Hout.
  { intros Hbad. unfold peek. unfold bind, get. cbv beta iota.
    destruct (Z.ltb_spec count 0) as [Hneg | Hpos]; [reflexivity |].
    destruct Hbad as [Hneg | Hbig]; [lia |].
    replace (len d <? count) with true by (symmetry; apply Z.ltb_lt; lia).
    reflexivity. }
  repeat match goal with |- _ /\ _ => split end;
    try reflexivity; try assumption.
  - destruct (Z.ltb_spec count 0) as [Hneg | Hpos].
    + unfold after. now rewrite Hout by lia.
    + destruct (Z.ltb_spec (len d) count) as [Hbig | Hfit].
      * unfold after. now rewrite Hout by lia.
      * unfold after. now rewrite Hin by lia.
  - apply Hin.
  - intros drawn d' Hdraw.
    destruct (_cards d) as [| c cards] eqn:Hcards.
    + destruct d as [cs]. cbn in Hcards. subst cs. discriminate Hdraw.
    + assert (_cards d <> []) as Hne by (rewrite Hcards; discriminate).
      destruct (Z.ltb_spec count 0) as [Hneg | Hpos].
      { rewrite (draw_raises d count Hne) in Hdraw by lia.
        discriminate Hdraw. }
      destruct (Z.ltb_spec (len d) count) as [Hbig | Hfit].
      { rewrite (draw_raises d count Hne) in Hdraw by lia.
        discriminate Hdraw. }
      rewrite (draw_in_range d count Hne) in Hdraw by lia.
      injection Hdraw as <- _. rewrite Hin by lia. now rewrite Hcards.
Qed.

Lemma peek_is_read_only_witness :
  peek 1 (mk [red_five; blue_seven]) = (Return [red_five], mk [red_five; blue_seven])
  /\ peek 3 (mk [red_five; blue_seven])
     = (Raise ValueError, mk [red_five; blue_seven]).
Proof.
  destruct (peek_is_read_only (mk [red_five; blue_seven]) 1)
    as (_ & Hin & _).
  destruct (peek_is_read_only (mk [red_five; blue_seven]) 3)
    as (_ & _ & Hout & _).
  split.
  - apply Hin. unfold len; cbn; lia.
  - apply Hout. right. unfold len; cbn; lia.
Defined.

(** [add_card] and [add_cards] put cards at the bottom: the size grows by
    their number, and drawing as many cards as the deck held before
    returns exactly the cards it held, leaving the added ones, in their
    order, as the whole deck.  [add_to_top] puts one card on top: the next
    single draw returns it and restores the deck. *)
Theorem add_cards_go_to_the_bottom (d : Deck.t) (cards : list Card.t)
  (card : Card.t) :
  result (add_cards cards) d = Return tt
  /\ len (after (add_cards cards) d) = len d + Z.of_nat (length cards)
  /\ add_card card d = add_cards [card] d
  /\ (_cards d <> [] ->
      draw (len d) (after (add_cards cards) d)
      = (Return (Some (_cards d)), mk cards))
  /\ draw 1 (after (add_to_top card) d) = (Return (Some [card]), d).
Proof.
  repeat match goal with |- _ /\ _ => split end.
  - reflexivity.
  - unfold after, add_cards, modify, len. cbn. rewrite length_app. lia.
  - reflexivity.
  - intros Hne. unfold after, add_cards, modify. cbn [snd].
    unfold len. now apply draw_front.
  - destruct d as [held]. apply (draw_front [card] held). discriminate.
Qed.

Lemma add_cards_go_to_the_bottom_witness :
  draw 1 (after (add_cards [wild_card]) (mk [red_five]))
  = (Return (Some [red_five]), mk [wild_card]).
Proof.
  destruct (add_cards_go_to_the_bottom (mk [red_five]) [wild_card] wild_card)
    as (_ & _ & _ & Hdraw & _).
  apply Hdraw. discriminate.
Defined.

Lemma rotate_left_right (cards : list Card.t) :
  rotate_left (rotate_right cards) = cards.
Proof.
  unfold rotate_right. destruct (rev cards) as [| last front] eqn:Hrev.
  - apply (f_equal (@rev Card.t)) in Hrev. rewrite rev_involutive in Hrev.
    now subst.
  - apply (f_equal (@rev Card.t)) in Hrev. rewrite rev_involutive in Hrev.
    subst. reflexivity.
Qed.

Lemma rotate_right_left (cards : list Card.t) :
  rotate_right (rotate_left cards) = cards.
Proof.
  destruct cards as [| first rest]; [reflexivity |].
  unfold rotate_left, rotate_right. rewrite rev_app_distr. cbn.
  now rewrite rev_involutive.
Qed.

Lemma iter_cancel (f g : list Card.t -> list Card.t) (n : nat)
  (cards : list Card.t) :
  (forall l, g (f l) = l) ->
  Nat.iter n g (Nat.iter n f cards) = cards.
Proof.
  intros Hgf. induction n as [| n IH]; [reflexivity |].
  rewrite Nat.iter_succ_r. cbn [Nat.iter nat_rect]. now rewrite Hgf.
Qed.

Lemma iter_rotate_permutation (f : list Card.t -> list Card.t) (n : nat)
  (cards : list Card.t) :
  (forall l, Permutation l (f l)) ->
  Permutation cards (Nat.iter n f cards).
Proof.
  intros Hf. induction n as [| n IH]; [reflexivity |].
  cbn [Nat.iter nat_rect]. etransitivity; [exact IH | apply Hf].
Qed.

Lemma rotate_left_permutation (cards : list Card.t) :
  Permutation cards (rotate_left cards).
Proof.
  destruct cards as [| first rest]; [reflexivity |].
  apply Permutation_cons_append.
Qed.

Lemma rotate_right_permutation (cards : list Card.t) :
  Permutation cards (rotate_right cards).
Proof.
  rewrite <- (rotate_left_right cards) at 1.
  symmetry. apply rotate_left_permutation.
Qed.

Lemma iter_rotate_left (k : nat) (cards : list Card.t) :
  (k <= length cards)%nat ->
  Nat.iter k rotate_left cards = skipn k cards ++ firstn k cards.
Proof.
  revert cards. induction k as [| k IH]; intros cards Hk.
  - cbn. now rewrite app_nil_r.
  - destruct cards as [| first rest]; [cbn in Hk; lia |].
    cbn [length] in Hk. rewrite Nat.iter_succ_r. cbn [rotate_left].
    rewrite IH by (rewrite length_app; cbn; lia).
    rewrite skipn_app, firstn_app.
    replace (k - length rest)%nat with 0%nat by lia.
    cbn [skipn firstn]. rewrite app_nil_r, <- app_assoc. reflexivity.
Qed.

Lemma ssize_t_bounds :
  PY_SSIZE_T_MIN = -9223372036854775808
  /\ PY_SSIZE_T_MAX = 9223372036854775807.
Proof. split; reflexivity. Qed.

Lemma rotate_fits (d : Deck.t) (positions : Z) :
  PY_SSIZE_T_MIN <= positions <= PY_SSIZE_T_MAX ->
  rotate positions d
  = (Return tt,
     mk (if 0 <=? positions
         then Nat.iter (Z.to_nat positions) rotate_right (_cards d)
         else Nat.iter (Z.to_nat (- positions)) rotate_left (_cards d))).
Proof.
  intros Hfits. unfold rotate.
  replace (positions <? PY_SSIZE_T_MIN) with false
    by (symmetry; apply Z.ltb_ge; lia).
  replace (PY_SSIZE_T_MAX <? positions) with false
    by (symmetry; apply Z.ltb_ge; lia).
  reflexivity.
Qed.

Lemma rotate_overflows (d : Deck.t) (positions : Z) :
  positions < PY_SSIZE_T_MIN \/ PY_SSIZE_T_MAX < positions ->
  rotate positions d = (Raise OverflowError, d).
Proof.
  intros Hout. unfold rotate.
  destruct (Z.ltb_spec positions PY_SSIZE_T_MIN) as [Hlow | Hlow];
    [reflexivity |].
  destruct (Z.ltb_spec PY_SSIZE_T_MAX positions) as [Hhigh | Hhigh];
    [reflexivity | lia].
Qed.

(** [rotate(positions)] raises [OverflowError], leaving the deck as it
    was, when [positions] does not fit a [Py_ssize_t] (below [-2^63] or
    above [2^63 - 1]); otherwise it returns and only reorders the deck.
    [rotate(-n)] undoes [rotate(n)] for [-2^63 < n <= 2^63 - 1], whereas
    after [rotate(-2^63)] the call [rotate(2^63)] raises and undoes
    nothing.  [rotate(-k)] with [0 <= k <= size] moves the [k] cards on top
    to the bottom, keeping their order, so that a rotation by the size of
    the deck changes nothing (sizes up to [2^63]). *)
Theorem rotate_is_a_cyclic_shift (d : Deck.t) (positions : Z) :
  (positions < PY_SSIZE_T_MIN \/ PY_SSIZE_T_MAX < positions ->
   rotate positions d = (Raise OverflowError, d))
  /\ (PY_SSIZE_T_MIN <= positions <= PY_SSIZE_T_MAX ->
      result (rotate positions) d = Return tt
      /\ Permutation (_cards d) (_cards (after (rotate positions) d)))
  /\ (PY_SSIZE_T_MIN < positions <= PY_SSIZE_T_MAX ->
      after (rotate (- positions)) (after (rotate positions) d) = d)
  /\ rotate (- PY_SSIZE_T_MIN) (after (rotate PY_SSIZE_T_MIN) d)
     = (Raise OverflowError, after (rotate PY_SSIZE_T_MIN) d)
  /\ (0 <= positions <= len d -> positions <= - PY_SSIZE_T_MIN ->
      _cards (after (rotate (- positions)) d)
      = skipn (Z.to_nat positions) (_cards d)
        ++ firstn (Z.to_nat positions) (_cards d))
  /\ (len d <= - PY_SSIZE_T_MIN -> after (rotate (- len d)) d = d).
Proof.
  destruct ssize_t_bounds as [Hmin Hmax].
  assert (forall k, 0 <= k <= len d -> k <= - PY_SSIZE_T_MIN ->
            _cards (after (rotate (- k)) d)
            = skipn (Z.to_nat k) (_cards d) ++ firstn (Z.to_nat k) (_cards d))
    as Hshift.
  { intros k Hk Hfit. unfold after. rewrite rotate_fits by lia.
    cbn [snd _cards].
    destruct (Z.leb_spec 0 (- k)) as [Hzero | Hneg].
    - assert (k = 0) as -> by lia. cbn. now rewrite app_nil_r.
    - rewrite Z.opp_involutive. apply iter_rotate_left.
      unfold len in Hk. lia. }
  repeat match goal with |- _ /\ _ => split end.
  - apply rotate_overflows.
  - intros Hfits. unfold result, after. rewrite rotate_fits by exact Hfits.
    cbn [fst snd _cards]. split; [reflexivity |].
    destruct (0 <=? positions).
    + apply iter_rotate_permutation, rotate_right_permutation.
    + apply iter_rotate_permutation, rotate_left_permutation.
  - intros Hfits. unfold after.
    rewrite (rotate_fits d positions) by lia. cbn [snd].
    rewrite rotate_fits by lia. cbn [snd _cards].
    destruct d as [cards]. cbn [_cards]. f_equal.
    destruct (Z.leb_spec 0 positions) as [Hpos | Hneg].
    + destruct (Z.leb_spec 0 (- positions)) as [Hzero | Hneg].
      * assert (positions = 0) as -> by lia. reflexivity.
      * rewrite Z.opp_involutive.
        apply iter_cancel, rotate_left_right.
    + replace (0 <=? - positions) with true
        by (symmetry; apply Z.leb_le; lia).
      apply iter_cancel, rotate_right_left.
  - apply rotate_overflows. lia.
  - apply Hshift.
  - intros Hfit. destruct d as [cards].
    specialize (Hshift (len (mk cards))). cbn [_cards] in Hshift.
    assert (_cards (after (rotate (- len (mk cards))) (mk cards)) = cards)
      as Hcards.
    { rewrite Hshift by (unfold len in *; cbn [_cards] in *; lia).
      unfold len. cbn [_cards]. rewrite Nat2Z.id.
      now rewrite skipn_all, firstn_all. }
    destruct (after (rotate (- len (mk cards))) (mk cards)) as [cs].
    cbn in Hcards. now subst.
Qed.

Lemma rotate_is_a_cyclic_shift_witness :
  _cards (after (rotate (-1)) (mk [red_five; blue_seven; wild_card]))
  = [blue_seven; wild_card; red_five]
  /\ rotate (2 ^ 63) (mk [red_five; blue_seven])
     = (Raise OverflowError, mk [red_five; blue_seven]).
Proof.
  destruct (rotate_is_a_cyclic_shift (mk [red_five; blue_seven; wild_card]) 1)
    as (_ & _ & _ & _ & Hshift & _).
  destruct (rotate_is_a_cyclic_shift (mk [red_five; blue_seven]) (2 ^ 63))
    as (Hover & _).
  split.
  - apply Hshift; [unfold len; cbn; lia | discriminate].
  - apply Hover. right. reflexivity.
Defined.
End DeckOperations.


(** ** Building, counting and shuffling the deck *)

Section DeckComposition.
Import Deck.

Lemma constructedb_sound (c : Card.t) :
  constructedb c = true -> Card.constructed c.
Proof.
  unfold constructedb. intros H.
  exists (Card.color c), (Card.label c).
  destruct (Card.init (Card.color c) (Card.label c)) as [c' |] eqn:Hinit;
    [| discriminate].
  apply eqb_prop in H. rewrite init_cases in Hinit.
  destruct (Bool.eqb (Card.label_in (Card.label c) Card.WILD_CARDS)
              (CardColor.eqb (Card.color c) CardColor.WILD));
    [| discriminate].
  injection Hinit as <-. destruct c as [col lab w]. cbn in *. now subst.
Qed.

Lemma count_where_cons (p : Card.t -> bool) (c : Card.t) (cards : list Card.t) :
  count_where p (c :: cards)
  = (if p c then 1 else 0) + count_where p cards.
Proof.
  unfold count_where. cbn [filter]. destruct (p c); cbn [length]; lia.
Qed.

Lemma count_card_eq (c : Card.t) (d : distribution) :
  count_card c d =
  (Return tt,
   mk_distribution (total d)
     (number_cards d + (if Card.is_number_card c then 1 else 0))
     (action_cards d
      + (if negb (Card.is_number_card c) && Card.is_action_card c
         then 1 else 0))
     (wild_cards d
      + (if negb (Card.is_number_card c) && negb (Card.is_action_card c)
            && Card.is_wild c
         then 1 else 0))
     (incr_color (Card.color c) (by_color d))
     (incr_label (Card.label c) (by_label d))).
Proof.
  unfold count_card.
  destruct (Card.is_number_card c), (Card.is_action_card c), (Card.is_wild c);
    unfold bind, modify, ret;
    cbn [negb andb total number_cards action_cards wild_cards by_color
         by_label];
    rewrite ?Z.add_0_r; reflexivity.
Qed.

Lemma sum_by_color_incr (key : CardColor.t) (d : CardColor.t -> Z) :
  sum_by_color (incr_color key d) = sum_by_color d + 1.
Proof. destruct key; unfold sum_by_color, incr_color; cbn; lia. Qed.

(** The loop of [get_card_distribution], from any starting dictionary. *)
Lemma count_cards_from (cards : list Card.t) (d0 : distribution) :
  result (for_in cards count_card) d0 = Return tt
  /\ total (after (for_in cards count_card) d0) = total d0
  /\ (forall color,
        by_color (after (for_in cards count_card) d0) color
        = by_color d0 color
          + count_where (fun c => CardColor.eqb (Card.color c) color) cards)
  /\ (forall label,
        by_label (after (for_in cards count_card) d0) label
        = by_label d0 label
          + count_where (fun c => CardLabel.eqb (Card.label c) label) cards)
  /\ number_cards (after (for_in cards count_card) d0)
     = number_cards d0 + count_where Card.is_number_card cards
  /\ action_cards (after (for_in cards count_card) d0)
     = action_cards d0
       + count_where (fun c => negb (Card.is_number_card c)
                               && Card.is_action_card c) cards
  /\ wild_cards (after (for_in cards count_card) d0)
     = wild_cards d0
       + count_where (fun c => negb (Card.is_number_card c)
                               && negb (Card.is_action_card c)
                               && Card.is_wild c) cards
  /\ sum_by_color (by_color (after (for_in cards count_card) d0))
     = sum_by_color (by_color d0) + Z.of_nat (length cards).
Proof.
  revert d0. induction cards as [| c cards IH]; intros d0.
  - unfold count_where. cbn. repeat split; intros; lia.
  - assert (for_in (c :: cards) count_card d0
            = for_in cards count_card (snd (count_card c d0))) as Hstep.
    { cbn [for_in]. unfold bind. rewrite count_card_eq. reflexivity. }
    unfold result, after. rewrite Hstep.
    destruct (IH (snd (count_card c d0)))
      as (Hres & Htot & Hcol & Hlab & Hnum & Hact & Hwild & Hsum).
    unfold result, after in Hres, Htot, Hcol, Hlab, Hnum, Hact, Hwild, Hsum.
    rewrite count_card_eq in *. cbn [snd] in *.
    repeat match goal with |- _ /\ _ => split end.
    + exact Hres.
    + rewrite Htot. reflexivity.
    + intros color. rewrite Hcol, count_where_cons. cbn [by_color].
      unfold incr_color.
      replace (CardColor.eqb color (Card.color c))
        with (CardColor.eqb (Card.color c) color)
        by (destruct color, (Card.color c); reflexivity).
      destruct (CardColor.eqb (Card.color c) color); lia.
    + intros label. rewrite Hlab, count_where_cons. cbn [by_label].
      unfold incr_label.
      replace (CardLabel.eqb label (Card.label c))
        with (CardLabel.eqb (Card.label c) label)
        by (destruct label, (Card.label c); reflexivity).
      destruct (CardLabel.eqb (Card.label c) label); lia.
    + rewrite Hnum, count_where_cons. cbn [number_cards]. lia.
    + rewrite Hact, count_where_cons. cbn [action_cards]. lia.
    + rewrite Hwild, count_where_cons. cbn [wild_cards]. lia.
    + rewrite Hsum. cbn [by_color length]. rewrite sum_by_color_incr. lia.
Qed.
End DeckComposition.

Section DeckCounts.
Import Deck.

Lemma kinds_at_most_one (cards : list Card.t) :
  count_where Card.is_number_card cards
  + count_where (fun c => negb (Card.is_number_card c)
                          && Card.is_action_card c) cards
  + count_where (fun c => negb (Card.is_number_card c)
                          && negb (Card.is_action_card c)
                          && Card.is_wild c) cards
  <= Z.of_nat (length cards).
Proof.
  induction cards as [| c cards IH]; [cbn; lia |].
  rewrite !count_where_cons. cbn [length].
  destruct (Card.is_number_card c), (Card.is_action_card c), (Card.is_wild c);
    cbn [negb andb]; lia.
Qed.

Lemma kinds_exactly_one (cards : list Card.t) :
  Forall Card.constructed cards ->
  count_where Card.is_number_card cards
  + count_where (fun c => negb (Card.is_number_card c)
                          && Card.is_action_card c) cards
  + count_where (fun c => negb (Card.is_number_card c)
                          && negb (Card.is_action_card c)
                          && Card.is_wild c) cards
  = Z.of_nat (length cards).
Proof.
  induction 1 as [| c cards Hc Hcards IH]; [reflexivity |].
  rewrite !count_where_cons. cbn [length].
  destruct (constructed_kind c Hc)
    as [(-> & -> & -> & _) | [(-> & -> & -> & _) | (-> & -> & -> & _)]];
    cbn [negb andb]; lia.
Qed.

(** [get_card_distribution] leaves the deck alone and counts every card
    once: [total] is the size, each colour and each label is mapped to the
    number of cards that bear it, the counts by colour add up to the size,
    and the numbers of number, action and wild cards add up to at most the
    size, and to the size itself when every card came from the
    constructor. *)
Theorem distribution_counts_every_card (d : Deck.t) :
  exists dist,
    get_card_distribution d = (Return dist, d)
    /\ total dist = len d
    /\ (forall color,
          by_color dist color
          = count_where (fun c => CardColor.eqb (Card.color c) color) (_cards d))
    /\ (forall label,
          by_label dist label
          = count_where (fun c => CardLabel.eqb (Card.label c) label) (_cards d))
    /\ sum_by_color (by_color dist) = len d
    /\ number_cards dist + action_cards dist + wild_cards dist <= len d
    /\ (Forall Card.constructed (_cards d) ->
        number_cards dist + action_cards dist + wild_cards dist = len d).
Proof.
  eexists. split; [reflexivity |].
  destruct (count_cards_from (_cards d)
              (mk_distribution (len d) 0 0 0 (fun _ => 0) (fun _ => 0)))
    as (_ & Htot & Hcol & Hlab & Hnum & Hact & Hwild & Hsum).
  cbn [total by_color by_label number_cards action_cards wild_cards]
    in Htot, Hcol, Hlab, Hnum, Hact, Hwild, Hsum.
  repeat match goal with |- _ /\ _ => split end.
  - exact Htot.
  - intros color. rewrite Hcol. lia.
  - intros label. rewrite Hlab. lia.
  - rewrite Hsum. unfold sum_by_color, len. lia.
  - rewrite Hnum, Hact, Hwild.
    pose proof (kinds_at_most_one (_cards d)). unfold len. lia.
  - intros Hall. rewrite Hnum, Hact, Hwild.
    pose proof (kinds_exactly_one (_cards d) Hall). unfold len. lia.
Qed.

Lemma distribution_counts_every_card_witness :
  exists dist,
    get_card_distribution (mk [red_five; wild_card; blue_seven])
    = (Return dist, mk [red_five; wild_card; blue_seven])
    /\ number_cards dist + action_cards dist + wild_cards dist = 3.
Proof.
  destruct (distribution_counts_every_card
              (mk [red_five; wild_card; blue_seven]))
    as (dist & Hrun & _ & _ & _ & _ & _ & Hkinds).
  exists dist. split; [exact Hrun |].
  apply Hkinds. repeat constructor; apply constructedb_sound; reflexivity.
Defined.

Lemma standard_cards_constructed : Forall Card.constructed standard_cards.
Proof.
  apply Forall_forall. intros c Hin. apply constructedb_sound.
  assert (forallb constructedb standard_cards = true) as Hall
    by (vm_compute; reflexivity).
  rewrite forallb_forall in Hall. now apply Hall.
Qed.

Lemma initialize_standard_deck_eq (d : Deck.t) :
  _initialize_standard_deck d = (Return tt, mk standard_cards).
Proof. destruct d as [cards]. reflexivity. Qed.

Lemma standard_cards_length : length standard_cards = 108%nat.
Proof. vm_compute. reflexivity. Qed.

(** [_initialize_standard_deck] raises nothing and, whatever the deck
    held, leaves the 108 standard cards, each one accepted by the
    constructor: 76 number cards, 24 action cards and 8 wild cards; 25
    cards of each of the four colours and 8 of colour [WILD]; four zeros,
    eight of each of the labels 1 to 9, [SKIP], [REVERSE] and [DRAW_TWO],
    four [WILD] and four [WILD_DRAW_FOUR]. *)
Theorem standard_deck_composition (d : Deck.t) :
  _initialize_standard_deck d = (Return tt, mk standard_cards)
  /\ length standard_cards = 108%nat
  /\ Forall Card.constructed standard_cards
  /\ exists dist,
       get_card_distribution (mk standard_cards)
       = (Return dist, mk standard_cards)
       /\ total dist = 108
       /\ number_cards dist = 76 /\ action_cards dist = 24
       /\ wild_cards dist = 8
       /\ (forall color,
             by_color dist color
             = match color with CardColor.WILD => 8 | _ => 25 end)
       /\ (forall label,
             by_label dist label
             = match label with
               | CardLabel.ZERO | CardLabel.WILD
               | CardLabel.WILD_DRAW_FOUR => 4
               | _ => 8
               end).
Proof.
  split; [| split; [| split]].
  - apply initialize_standard_deck_eq.
  - exact standard_cards_length.
  - exact standard_cards_constructed.
  - eexists. split; [reflexivity |].
    repeat match goal with |- _ /\ _ => split end.
    + vm_compute; reflexivity.
    + vm_compute; reflexivity.
    + vm_compute; reflexivity.
    + vm_compute; reflexivity.
    + intros color. destruct color; vm_compute; reflexivity.
    + intros label. destruct label; vm_compute; reflexivity.
Qed.
End DeckCounts.

Section DeckShuffle.
Import Deck.
Variable random_shuffle : nat -> list Card.t -> list Card.t.
Variable num_shuffles : Z -> nat.
Hypothesis random_shuffle_permutes :
  forall i cards, Permutation cards (random_shuffle i cards).

Lemma shuffle_passes_permutation (passes i : nat) (cards : list Card.t) :
  Permutation cards (shuffle_passes random_shuffle i passes cards).
Proof.
  revert i cards. induction passes as [| k IH]; intros i cards;
    [reflexivity |].
  cbn [shuffle_passes]. etransitivity;
    [apply (random_shuffle_permutes i) | apply IH].
Qed.

Lemma shuffle_nonempty (deck : Deck.t) :
  _cards deck <> [] ->
  shuffle random_shuffle num_shuffles deck
  = (Return tt,
     mk (shuffle_passes random_shuffle 0
           (num_shuffles (Z.of_nat (length (_cards deck)))) (_cards deck))).
Proof.
  destruct deck as [cards]. intros Hne.
  unfold shuffle, bind, get. cbv beta iota zeta. cbn [_cards] in *.
  replace (Z.of_nat (length cards) =? 0) with false
    by (symmetry; apply Z.eqb_neq; destruct cards;
        [contradiction | cbn [length]; lia]).
  reflexivity.
Qed.

Lemma new_deck_is_standard :
  exists deck,
    init random_shuffle num_shuffles true = Return deck
    /\ Permutation standard_cards (_cards deck).
Proof.
  unfold init. cbn [when]. unfold bind at 1.
  rewrite (initialize_standard_deck_eq (mk [])).
  assert (_cards (mk standard_cards) <> []) as Hne
    by (intros H; apply (f_equal (@length Card.t)) in H;
        cbn [_cards] in H; rewrite standard_cards_length in H;
        discriminate H).
  rewrite (shuffle_nonempty _ Hne). eexists. split; [reflexivity |].
  cbn [_cards]. apply shuffle_passes_permutation.
Qed.

(** Provided each call of [random.shuffle] permutes its list: [shuffle] on
    an empty deck raises [ValueError] (the logarithm of 0) and leaves it
    empty, so that [Deck(initialize=False)] cannot be built; [shuffle] on
    any other deck returns and leaves the same cards in some order; and
    [Deck()] is some ordering of the 108 standard cards. *)
Theorem shuffle_keeps_the_cards (d : Deck.t) :
  (_cards d = [] ->
   shuffle random_shuffle num_shuffles d = (Raise ValueError, d))
  /\ (_cards d <> [] ->
      result (shuffle random_shuffle num_shuffles) d = Return tt
      /\ Permutation (_cards d)
           (_cards (after (shuffle random_shuffle num_shuffles) d))
      /\ len (after (shuffle random_shuffle num_shuffles) d) = len d)
  /\ init random_shuffle num_shuffles false = Raise ValueError
  /\ exists deck,
       init random_shuffle num_shuffles true = Return deck
       /\ Permutation standard_cards (_cards deck)
       /\ len deck = 108.
Proof.
  assert (forall deck, _cards deck <> [] ->
            shuffle random_shuffle num_shuffles deck
            = (Return tt,
               mk (shuffle_passes random_shuffle 0
                     (num_shuffles (Z.of_nat (length (_cards deck))))
                     (_cards deck)))) as Hrun.
  { intros [cards] Hne. unfold shuffle, bind, get. cbv beta iota zeta.
    cbn [_cards] in *.
    replace (Z.of_nat (length cards) =? 0) with false
      by (symmetry; apply Z.eqb_neq; destruct cards;
          [contradiction | cbn [length]; lia]).
    reflexivity. }
  repeat match goal with |- _ /\ _ => split end.
  - destruct d as [cards]. cbn. intros ->. reflexivity.
  - intros Hne. unfold result, after. rewrite (Hrun d Hne). cbn [fst snd].
    repeat split.
    + apply shuffle_passes_permutation.
    + unfold len. cbn [_cards]. f_equal. symmetry.
      apply Permutation_length, shuffle_passes_permutation.
  - reflexivity.
  - unfold init. cbn [when].
    unfold bind at 1.
    rewrite (initialize_standard_deck_eq (mk [])).
    assert (_cards (mk standard_cards) <> []) as Hne
      by (intros H; apply (f_equal (@length Card.t)) in H;
          cbn [_cards] in H;
          rewrite standard_cards_length in H;
          discriminate H).
    rewrite (Hrun _ Hne). eexists. split; [reflexivity |].
    cbn [_cards]. split.
    + apply shuffle_passes_permutation.
    + unfold len. cbn [_cards].
      rewrite <- (Permutation_length
                    (shuffle_passes_permutation
                       (num_shuffles (Z.of_nat (length standard_cards))) 0
                       standard_cards)).
      rewrite standard_cards_length.
      reflexivity.
Qed.
End DeckShuffle.

(** Reversing the list is one way to permute it. *)
Lemma shuffle_keeps_the_cards_witness :
  Deck.shuffle (fun _ cards => rev cards) (fun _ => 3%nat) (Deck.mk [])
  = (Raise ValueError, Deck.mk [])
  /\ Deck.init (fun _ cards => rev cards) (fun _ => 3%nat) false
     = Raise ValueError.
Proof.
  destruct (shuffle_keeps_the_cards (fun _ cards => rev cards)
              (fun _ => 3%nat) (fun _ cards => Permutation_rev cards)
              (Deck.mk []))
    as (Hempty & _ & Hinit & _).
  split; [apply Hempty; reflexivity | exact Hinit].
Defined.


(** ** The hand: sorting, playing and scoring *)

Section HandFacts.
Import Player.

Lemma key_ltb_lt (a b : Z * Z) :
  key_ltb a b = true <->
  fst a < fst b \/ (fst a = fst b /\ snd a < snd b).
Proof.
  unfold key_ltb.
  rewrite orb_true_iff, andb_true_iff, !Z.ltb_lt, Z.eqb_eq. reflexivity.
Qed.

Lemma key_ltb_ge (a b : Z * Z) :
  key_ltb a b = false <->
  fst b < fst a \/ (fst a = fst b /\ snd b <= snd a).
Proof.
  destruct (key_ltb a b) eqn:H.
  - apply key_ltb_lt in H. split; [discriminate | lia].
  - split; [intros _ | reflexivity].
    assert (~ (fst a < fst b \/ (fst a = fst b /\ snd a < snd b))) as Hn
      by (intros Hlt; apply key_ltb_lt in Hlt; congruence).
    lia.
Qed.

Lemma hand_order_trans (a b c : Card.t) :
  hand_order a b -> hand_order b c -> hand_order a c.
Proof. unfold hand_order. rewrite !key_ltb_ge. lia. Qed.

Lemma hand_order_of_lt (a b : Card.t) :
  key_ltb (sort_key a) (sort_key b) = true -> hand_order a b.
Proof. unfold hand_order. rewrite key_ltb_lt, key_ltb_ge. lia. Qed.

Lemma insert_by_key_permutation (card : Card.t) (sorted : list Card.t) :
  Permutation (card :: sorted) (insert_by_key card sorted).
Proof.
  induction sorted as [| held rest IH]; [reflexivity |].
  cbn [insert_by_key].
  destruct (key_ltb (sort_key card) (sort_key held)); [reflexivity |].
  rewrite perm_swap. now apply perm_skip.
Qed.

Lemma insert_by_key_sorted (card : Card.t) (sorted : list Card.t) :
  StronglySorted hand_order sorted ->
  StronglySorted hand_order (insert_by_key card sorted).
Proof.
  induction 1 as [| held rest Hrest IH Hheld].
  - repeat constructor.
  - cbn [insert_by_key].
    destruct (key_ltb (sort_key card) (sort_key held)) eqn:Hlt.
    + constructor; [now constructor |].
      constructor; [now apply hand_order_of_lt |].
      eapply Forall_impl; [| exact Hheld].
      intros x Hx. eapply hand_order_trans; [| exact Hx].
      now apply hand_order_of_lt.
    + constructor; [exact IH |].
      apply (Permutation_Forall (insert_by_key_permutation card rest)).
      constructor; [exact Hlt | exact Hheld].
Qed.

Lemma fold_insert (cards sorted : list Card.t) :
  StronglySorted hand_order sorted ->
  Permutation (sorted ++ cards)
    (fold_left (fun acc card => insert_by_key card acc) cards sorted)
  /\ StronglySorted hand_order
       (fold_left (fun acc card => insert_by_key card acc) cards sorted).
Proof.
  revert sorted. induction cards as [| card cards IH]; intros sorted Hs.
  - cbn. now rewrite app_nil_r.
  - cbn [fold_left].
    destruct (IH (insert_by_key card sorted) (insert_by_key_sorted _ _ Hs))
      as [Hperm Hsorted].
    split; [| exact Hsorted].
    rewrite <- Hperm, <- insert_by_key_permutation.
    symmetry. apply Permutation_middle.
Qed.

Lemma sort_by_key_spec (cards : list Card.t) :
  Permutation cards (sort_by_key cards)
  /\ StronglySorted hand_order (sort_by_key cards).
Proof. apply (fold_insert cards []). constructor. Qed.

(** The order of a hand is the order [Card.__lt__] gives. *)
Lemma key_ltb_is_card_ltb (a b : Card.t) :
  key_ltb (sort_key a) (sort_key b) = Card.ltb a b.
Proof.
  unfold key_ltb, sort_key, Card.ltb, CardColor.eqb. cbn [fst snd].
  destruct (Z.eqb_spec (CardColor.value (Card.color a))
              (CardColor.value (Card.color b))) as [Heq | Hne].
  - rewrite Heq, Z.ltb_irrefl. reflexivity.
  - rewrite andb_false_l, orb_false_r. reflexivity.
Qed.

Lemma added_hand (p : Player.t) (cards : list Card.t) :
  Permutation (hand p ++ cards) (hand (after (add_cards_to_hand cards) p))
  /\ StronglySorted hand_order (hand (after (add_cards_to_hand cards) p)).
Proof. apply (sort_by_key_spec (hand p ++ cards)). Qed.

(** [add_cards_to_hand] (and [add_card_to_hand], which is the case of one
    card) never raises; afterwards the hand holds the cards it held and the
    new ones, no other, sorted by colour and then label, which is the order
    of [Card.__lt__]; [has_said_uno] is false and nothing else on the
    player has changed. *)
Theorem add_cards_to_hand_sorts (p : Player.t) (cards : list Card.t)
  (card : Card.t) :
  result (add_cards_to_hand cards) p = Return tt
  /\ Permutation (hand p ++ cards) (hand (after (add_cards_to_hand cards) p))
  /\ StronglySorted hand_order (hand (after (add_cards_to_hand cards) p))
  /\ (forall a b, hand_order a b <-> Card.ltb b a = false)
  /\ has_said_uno (after (add_cards_to_hand cards) p) = false
  /\ name (after (add_cards_to_hand cards) p) = name p
  /\ player_id (after (add_cards_to_hand cards) p) = player_id p
  /\ score (after (add_cards_to_hand cards) p) = score p
  /\ _last_action (after (add_cards_to_hand cards) p) = _last_action p
  /\ add_card_to_hand card p = add_cards_to_hand [card] p.
Proof.
  destruct (sort_by_key_spec (hand p ++ cards)) as [Hperm Hsorted].
  repeat match goal with |- _ /\ _ => split end; try reflexivity.
  - exact Hperm.
  - exact Hsorted.
  - intros a b. unfold hand_order. now rewrite key_ltb_is_card_ltb.
Qed.

Lemma list_remove_some (card : Card.t) (cards rest : list Card.t) :
  list_remove card cards = Some rest -> contains card cards = true.
Proof.
  revert rest. induction cards as [| held cards IH]; intros rest;
    [discriminate |].
  cbn [list_remove contains existsb].
  destruct (Card.eqb held card); [reflexivity |].
  destruct (list_remove card cards) as [rest' |]; [| discriminate].
  intros _. now apply (IH rest').
Qed.

Lemma play_card_removed (p : Player.t) (card : Card.t)
  (new_color : option CardColor.t) (rest : list Card.t) :
  list_remove card (hand p) = Some rest ->
  play_card card new_color p
  = (Return (PlayerAction.mk (Some card) new_color false false),
     mk (name p) (player_id p) rest (has_said_uno p) (score p)
        (Some (PlayerAction.mk (Some card) new_color false false))).
Proof.
  intros Hrm. unfold play_card. unfold bind at 1. unfold get at 1.
  cbv beta iota. rewrite (list_remove_some _ _ _ Hrm). cbn [negb].
  unfold __remove_card_from_hand. step_method. rewrite Hrm. reflexivity.
Qed.

Lemma play_card_returns (p p' : Player.t) (card : Card.t)
  (new_color : option CardColor.t) (action : PlayerAction.t) :
  play_card card new_color p = (Return action, p') ->
  exists before held rest,
    hand p = before ++ held :: rest
    /\ Card.eqb held card = true
    /\ hand p' = before ++ rest.
Proof.
  intros Hplay. destruct (contains card (hand p)) eqn:Hin.
  - destruct (list_remove_first card (hand p) Hin)
      as (before & held & rest & Hhand & Hheld & _ & Hrm).
    rewrite (play_card_removed p card new_color _ Hrm) in Hplay.
    injection Hplay as _ <-. exists before, held, rest. now repeat split.
  - unfold play_card in Hplay. unfold bind at 1 in Hplay.
    unfold get at 1 in Hplay. cbv beta iota in Hplay. rewrite Hin in Hplay.
    discriminate Hplay.
Qed.

Lemma sorted_remove (before rest : list Card.t) (held : Card.t) :
  StronglySorted hand_order (before ++ held :: rest) ->
  StronglySorted hand_order (before ++ rest).
Proof.
  induction before as [| b before IH]; cbn [app]; intros Hs.
  - now inversion Hs.
  - inversion Hs as [| ? ? Htail Hall]; subst.
    constructor; [now apply IH |].
    rewrite Forall_app in Hall |- *. destruct Hall as [Hb Hr].
    split; [exact Hb | now inversion Hr].
Qed.

(** Whenever [play_card] returns, the hand is one card shorter and, if it
    was sorted, still is.  A card just added can always be played: after
    [add_card_to_hand(card)], [play_card(card)] returns, the hand is
    sorted and as long as before the two calls, and when all the cards
    involved came from the constructor it holds the same cards as
    before. *)
Theorem play_card_after_add (p : Player.t) (card : Card.t)
  (new_color : option CardColor.t) :
  (forall action p',
     play_card card new_color p = (Return action, p') ->
     S (length (hand p')) = length (hand p)
     /\ (StronglySorted hand_order (hand p) ->
         StronglySorted hand_order (hand p')))
  /\ exists action p'',
       play_card card new_color (after (add_card_to_hand card) p)
       = (Return action, p'')
       /\ length (hand p'') = length (hand p)
       /\ StronglySorted hand_order (hand p'')
       /\ (Forall Card.constructed (hand p) -> Card.constructed card ->
           Permutation (hand p) (hand p'')).
Proof.
  split.
  - intros action p' Hplay.
    destruct (play_card_returns _ _ _ _ _ Hplay)
      as (before & held & rest & Hhand & _ & Hhand').
    rewrite Hhand, Hhand'. split.
    + rewrite !length_app. cbn [length]. lia.
    + apply sorted_remove.
  - destruct (added_hand p [card]) as [Hperm Hsorted].
    assert (add_card_to_hand card p = add_cards_to_hand [card] p) as Hone
      by reflexivity.
    unfold after in *. rewrite <- Hone in Hperm, Hsorted.
    set (q := snd (add_card_to_hand card p)) in *.
    assert (contains card (hand q) = true) as Hin.
    { unfold contains. apply existsb_exists. exists card. split.
      - apply (Permutation_in _ Hperm), in_or_app. right. now left.
      - unfold Card.eqb. now rewrite CardColor_eqb_refl, CardLabel_eqb_refl. }
    destruct (list_remove_first card (hand q) Hin)
      as (before & held & rest & Hhand & Hheld & _ & Hrm).
    eexists. eexists. split; [apply (play_card_removed q card new_color _ Hrm) |].
    cbn [hand]. repeat match goal with |- _ /\ _ => split end.
    + apply Permutation_length in Hperm. rewrite Hhand in Hperm.
      rewrite !length_app in *. cbn [length] in Hperm. lia.
    + apply (sorted_remove before rest held). now rewrite <- Hhand.
    + intros Hall Hcard.
      assert (Card.constructed held) as Hheldc.
      { assert (Forall Card.constructed (hand q)) as Hq.
        { apply (Permutation_Forall Hperm), Forall_app. split; [exact Hall |].
          now constructor. }
        rewrite Hhand in Hq. apply Forall_app in Hq as [_ Hq].
        now inversion Hq. }
      assert (held = card) as -> by now apply constructed_eqb_eq.
      rewrite Hhand in Hperm.
      apply (Permutation_cons_inv (a := card)).
      rewrite (Permutation_middle before rest card), <- Hperm.
      apply Permutation_cons_append.
Qed.

Lemma play_card_after_add_witness :
  exists action p'',
    play_card red_five None (after (add_card_to_hand red_five) alice)
    = (Return action, p'')
    /\ length (hand p'') = length (hand alice).
Proof.
  destruct (play_card_after_add alice red_five None)
    as (_ & action & p'' & Hplay & Hlen & _).
  exists action, p''. split; [exact Hplay | exact Hlen].
Defined.

Lemma fold_points (cards : list Card.t) (acc : Z) :
  fold_left (fun acc card => acc + Card.points card) cards acc
  = acc + points_of cards.
Proof.
  revert acc. induction cards as [| c cards IH]; intros acc.
  - cbn. lia.
  - cbn [fold_left]. rewrite IH. unfold points_of. cbn [map fold_right]. lia.
Qed.

Lemma points_of_app (front back : list Card.t) :
  points_of (front ++ back) = points_of front + points_of back.
Proof.
  unfold points_of. induction front as [| c front IH]; [reflexivity |].
  cbn [app map fold_right]. rewrite IH. lia.
Qed.

Lemma points_of_permutation (cards cards' : list Card.t) :
  Permutation cards cards' -> points_of cards = points_of cards'.
Proof.
  unfold points_of.
  induction 1 as [| c l l' Hperm IH | c c' l | l l' l'' H1 IH1 H2 IH2];
    cbn [map fold_right]; lia.
Qed.

Lemma points_of_bounds (cards : list Card.t) :
  Forall Card.constructed cards ->
  0 <= points_of cards <= 50 * Z.of_nat (length cards).
Proof.
  unfold points_of. induction 1 as [| c cards Hc Hcards IH]; [cbn; lia |].
  cbn [map fold_right length].
  destruct (constructed_kind c Hc)
    as [(_ & _ & _ & _ & Hp) | [(_ & _ & _ & Hp) | (_ & _ & _ & Hp)]]; lia.
Qed.

(** [calculate_hand_score] changes nothing and returns the sum of the
    points of the cards held.  Adding a card raises the score by the
    points of that card; playing a card lowers it by them, when the cards
    came from the constructor; a hand of constructor-made cards scores
    between 0 and 50 times its size, so a player who [has_won] scores
    0. *)
Theorem hand_score_adds_points (p : Player.t) (card : Card.t)
  (new_color : option CardColor.t) :
  calculate_hand_score p = (Return (points_of (hand p)), p)
  /\ result calculate_hand_score (after (add_card_to_hand card) p)
     = Return (points_of (hand p) + Card.points card)
  /\ (Forall Card.constructed (hand p) ->
      0 <= points_of (hand p) <= 50 * Z.of_nat (length (hand p)))
  /\ (Forall Card.constructed (hand p) -> Card.constructed card ->
      forall action p',
        play_card card new_color p = (Return action, p') ->
        result calculate_hand_score p'
        = Return (points_of (hand p) - Card.points card))
  /\ (result has_won p = Return true -> points_of (hand p) = 0).
Proof.
  assert (forall q, calculate_hand_score q = (Return (points_of (hand q)), q))
    as Hscore.
  { intros q. unfold calculate_hand_score, bind, get, ret.
    now rewrite fold_points. }
  repeat match goal with |- _ /\ _ => split end.
  - apply Hscore.
  - unfold result. rewrite Hscore. cbn [fst]. f_equal.
    destruct (added_hand p [card]) as [Hperm _].
    assert (add_card_to_hand card p = add_cards_to_hand [card] p) as Hone
      by reflexivity.
    unfold after in *. rewrite <- Hone in Hperm.
    rewrite <- (points_of_permutation _ _ Hperm), points_of_app.
    unfold points_of. cbn. lia.
  - apply points_of_bounds.
  - intros Hall Hcard action p' Hplay.
    destruct (play_card_returns _ _ _ _ _ Hplay)
      as (before & held & rest & Hhand & Hheld & Hhand').
    unfold result. rewrite Hscore. cbn [fst]. f_equal.
    assert (held = card) as ->.
    { apply constructed_eqb_eq; [| exact Hcard | exact Hheld].
      rewrite Hhand in Hall. apply Forall_app in Hall as [_ Hall].
      now inversion Hall. }
    rewrite Hhand, Hhand', !points_of_app. unfold points_of.
    cbn [map fold_right]. lia.
  - unfold result, has_won, bind, get, ret. cbn [fst].
    intros [= Hlen]. apply Z.eqb_eq in Hlen.
    destruct (hand p); [reflexivity | cbn [length] in Hlen; lia].
Qed.

Lemma hand_score_adds_points_witness :
  0 <= points_of (hand alice) <= 50 * Z.of_nat (length (hand alice)).
Proof.
  destruct (hand_score_adds_points alice red_five None)
    as (_ & _ & Hbounds & _).
  apply Hbounds. repeat constructor; apply constructedb_sound; reflexivity.
Defined.
End HandFacts.


(** ** What every effect satisfies *)

Section EffectInvariant.
Import CardEffect.

Lemma keeps_ret {A} (a : A) : keeps (ret a).
Proof. intros e He. exact He. Qed.

Lemma keeps_raise {A} (x : exn) : keeps (raise (A := A) x).
Proof. intros e He. exact He. Qed.

Lemma keeps_get : keeps get.
Proof. intros e He. exact He. Qed.

Lemma keeps_bind {A B} (m : Eff A) (k : A -> Eff B) :
  keeps m -> (forall a, keeps (k a)) -> keeps (bind m k).
Proof.
  intros Hm Hk e He. rewrite after_bind.
  destruct (result m e) as [a | x]; [apply Hk |]; now apply Hm.
Qed.

Lemma keeps_when (b : bool) (m : Eff unit) : keeps m -> keeps (when b m).
Proof. destruct b; [auto | intros _; apply keeps_ret]. Qed.

Lemma keeps_deref (other : operand) : keeps (deref other).
Proof. destruct other; [apply keeps_ret | apply keeps_get]. Qed.

(** Unfolds a method on a record and settles the arithmetic. *)
Ltac settle_sound :=
  unfold sound, wf in *; cbn in *;
  repeat match goal with
         | H : _ /\ _ |- _ => destruct H
         end;
  repeat split; try intros; try lia; try congruence; try discriminate;
  try tauto.

Lemma keeps_set_pending : keeps set_pending.
Proof.
  intros [[] c d s r k] He; unfold set_pending; step_method; settle_sound.
Qed.

Lemma keeps_set_applied : keeps set_applied.
Proof.
  intros [[] c d s r k] He; unfold set_applied; step_method; settle_sound.
Qed.

Lemma keeps_set_resolved : keeps set_resolved.
Proof.
  intros [[] c d s r k] He; unfold set_resolved; step_method; settle_sound.
Qed.

Lemma keeps_set_color_change (color : option CardColor.t) :
  keeps (set_color_change color).
Proof.
  intros [[] c d s r k] He; destruct color as [[] |];
    unfold set_color_change, set_pending; step_method; settle_sound.
Qed.

Lemma keeps_set_draw_count (count : Z) : keeps (set_draw_count count).
Proof.
  intros [[] c d s r k] He; unfold set_draw_count, set_pending;
    destruct (Z.ltb_spec count 0); [exact He | | exact He | | exact He |
                                    | exact He |];
    destruct (Z.ltb_spec 0 count); step_method; settle_sound.
Qed.

Lemma keeps_set_skip_count (count : Z) : keeps (set_skip_count count).
Proof.
  intros [[] c d s r k] He; unfold set_skip_count, set_pending;
    destruct (Z.ltb_spec count 0); [exact He | | exact He | | exact He |
                                    | exact He |];
    destruct (Z.ltb_spec 0 count); step_method; settle_sound.
Qed.

Lemma keeps_set_reverse_direction (reverse : bool) :
  keeps (set_reverse_direction reverse).
Proof.
  intros [[] c d s r k] He; destruct reverse;
    unfold set_reverse_direction, set_pending; step_method; settle_sound.
Qed.

Lemma keeps_set_stackable (stackable : bool) : keeps (set_stackable stackable).
Proof. intros [st c d s r k] He. exact He. Qed.

Lemma keeps_execute_draw : keeps execute_draw.
Proof.
  intros [[] c d s r k] He; unfold execute_draw, is_applied; step_method;
    try exact He.
  destruct (0 <? d); cbn; settle_sound.
Qed.

Lemma keeps_execute_skip : keeps execute_skip.
Proof.
  intros [[] c d s r k] He; unfold execute_skip, is_applied; step_method;
    try exact He.
  destruct (0 <? s); cbn; settle_sound.
Qed.

Lemma keeps_combine (other : operand) : keeps (combine other).
Proof.
  unfold combine.
  repeat first
    [ apply keeps_set_pending
    | apply keeps_set_color_change | apply keeps_set_draw_count
    | apply keeps_set_skip_count | apply keeps_set_reverse_direction
    | apply keeps_set_stackable
    | apply keeps_deref | apply keeps_get | apply keeps_ret
    | apply keeps_when
    | match goal with |- keeps (match ?x with _ => _ end) => destruct x end
    | apply keeps_bind; [| intros ?] ].
Qed.

Lemma run_keeps_sound (c : call) (e : t) : sound e -> sound (run c e).
Proof.
  destruct c; cbn [run]; try (intros He; exact He).
  - apply keeps_set_pending.
  - apply keeps_set_applied.
  - apply keeps_set_resolved.
  - apply keeps_set_color_change.
  - apply keeps_set_draw_count.
  - apply keeps_set_skip_count.
  - apply keeps_set_reverse_direction.
  - apply keeps_combine.
  - apply keeps_execute_draw.
  - apply keeps_execute_skip.
Qed.

Lemma run_all_keeps_sound (calls : list call) (e : t) :
  sound e -> sound (run_all calls e).
Proof.
  revert e. induction calls as [| c calls IH]; intros e He; [exact He |].
  cbn [run_all fold_left]. apply IH. now apply run_keeps_sound.
Qed.

(** Whatever methods other than [reset_state] and [clear_effects] are
    called on a new [CardEffect], in whatever order and with whatever
    arguments (also those they refuse), the counts are never negative, the
    colour change is never [WILD], an effect in state [NO_EFFECT] carries
    no colour change, draw, skip or reverse, and an effect for which
    [has_effects] holds is active or resolved. *)
Theorem every_effect_is_sound (calls : list call) :
  0 <= _draw_count (run_all calls init)
  /\ 0 <= _skip_count (run_all calls init)
  /\ _color_change (run_all calls init) <> Some CardColor.WILD
  /\ (_state (run_all calls init) = EffectState.NO_EFFECT ->
      _color_change (run_all calls init) = None
      /\ _draw_count (run_all calls init) = 0
      /\ _skip_count (run_all calls init) = 0
      /\ _reverse_direction (run_all calls init) = false)
  /\ (result has_effects (run_all calls init) = Return true ->
      result is_active (run_all calls init) = Return true
      \/ _state (run_all calls init) = EffectState.RESOLVED).
Proof.
  assert (sound init) as Hinit
    by (unfold sound, wf; cbn; repeat split; solve [lia | discriminate]).
  destruct (run_all_keeps_sound calls init Hinit)
    as ((Hd & Hs & Hc) & Hidle).
  repeat match goal with |- _ /\ _ => split end; try assumption.
  destruct (run_all calls init) as [st c d s r k]. cbn in *.
  unfold result, has_effects, is_active, bind, get, ret. cbn.
  intros [= Heff]. destruct st; auto.
  destruct (Hidle eq_refl) as (-> & -> & -> & ->). discriminate Heff.
Qed.
End EffectInvariant.


(** ** The bots *)

Section BotColor.

Lemma bind_ret_l {S A B} (a : A) (k : A -> M S B) (s : S) :
  bind (ret a) k s = k a s.
Proof. reflexivity. Qed.

Lemma bind_returns {S A B} (m : M S A) (k : A -> M S B) (s s' : S) (x : A) :
  m s = (Return x, s') -> bind m k s = k x s'.
Proof. intros H. unfold bind. now rewrite H. Qed.

Lemma held_of_cons (color : CardColor.t) (c : Card.t) (cards : list Card.t) :
  held_of color (c :: cards)
  = (if negb (Card.is_wild c) && CardColor.eqb (Card.color c) color
     then 1 else 0) + held_of color cards.
Proof. apply count_where_cons. Qed.

(** The counting loop of [choose_color], from any counts. *)
Lemma count_colors_from (cards : list Card.t) (r b g y : Z) :
  (forall c, In c cards -> Card.is_wild c = false ->
             Card.color c <> CardColor.WILD) ->
  for_in cards
    (fun card =>
       if negb (Card.is_wild card) then
         color_counts <- get ;;
         match count_up (Card.color card) color_counts with
         | Return counted => put counted
         | Raise e => raise e
         end
       else ret tt)
    (four_counts r b g y)
  = (Return tt,
     four_counts (r + held_of CardColor.RED cards)
       (b + held_of CardColor.BLUE cards)
       (g + held_of CardColor.GREEN cards)
       (y + held_of CardColor.YELLOW cards)).
Proof.
  revert r b g y. induction cards as [| c cards IH]; intros r b g y Hcol.
  - unfold held_of, count_where. cbn. now rewrite !Z.add_0_r.
  - cbn [for_in]. rewrite !held_of_cons.
    assert (forall c', In c' cards -> Card.is_wild c' = false ->
                       Card.color c' <> CardColor.WILD) as Hrest
      by (intros c' Hin; apply Hcol; now right).
    specialize (Hcol c (or_introl eq_refl)).
    destruct (Card.is_wild c) eqn:Hwild; cbn [negb andb].
    + rewrite bind_ret_l, (IH _ _ _ _ Hrest). now rewrite !Z.add_0_l.
    + specialize (Hcol eq_refl).
      unfold four_counts in *.
      destruct (Card.color c) eqn:Hc; try congruence;
        (erewrite bind_returns by (unfold bind, get, put; cbn; reflexivity));
        rewrite (IH _ _ _ _ Hrest);
        change (CardColor.eqb CardColor.RED CardColor.RED) with true;
        cbv [CardColor.eqb CardColor.value Z.eqb Pos.eqb];
        repeat match goal with
               | |- (_, _) = (_, _) => f_equal
               | |- _ :: _ = _ :: _ => f_equal
               end; lia.
Qed.

Lemma most_held_color_eq (cards : list Card.t) :
  (forall c, In c cards -> Card.is_wild c = false ->
             Card.color c <> CardColor.WILD) ->
  most_held_color cards
  = max_by_count
      (four_counts (held_of CardColor.RED cards) (held_of CardColor.BLUE cards)
         (held_of CardColor.GREEN cards) (held_of CardColor.YELLOW cards)).
Proof.
  intros Hcol. unfold most_held_color.
  change [(CardColor.RED, 0); (CardColor.BLUE, 0); (CardColor.GREEN, 0);
          (CardColor.YELLOW, 0)] with (four_counts 0 0 0 0).
  now rewrite (count_colors_from cards 0 0 0 0 Hcol).
Qed.

Lemma max_by_count_four (r b g y : Z) :
  exists color count,
    max_by_count (four_counts r b g y) = Return color
    /\ In (color, count) (four_counts r b g y)
    /\ (forall other n, In (other, n) (four_counts r b g y) ->
        n <= count
        /\ (n = count -> CardColor.value color <= CardColor.value other)).
Proof.
  unfold max_by_count, four_counts. cbn [max_from].
  destruct (Z.ltb_spec r b) as [Hrb | Hrb];
    [ destruct (Z.ltb_spec b g) as [H2 | H2]
    | destruct (Z.ltb_spec r g) as [H2 | H2] ];
    [ destruct (Z.ltb_spec g y) as [H3 | H3]
    | destruct (Z.ltb_spec b y) as [H3 | H3]
    | destruct (Z.ltb_spec g y) as [H3 | H3]
    | destruct (Z.ltb_spec r y) as [H3 | H3] ];
    eexists; eexists; (split; [reflexivity |]);
    (split; [cbn; tauto |]);
    intros other n [[= <- <-] | [[= <- <-] | [[= <- <-] | [[= <- <-] | []]]]];
    cbn; lia.
Qed.

Lemma most_held_color_returns (cards : list Card.t) :
  (forall c, In c cards -> Card.is_wild c = false ->
             Card.color c <> CardColor.WILD) ->
  exists color,
    most_held_color cards = Return color
    /\ color <> CardColor.WILD
    /\ (forall other, other <> CardColor.WILD ->
        held_of other cards <= held_of color cards
        /\ (held_of other cards = held_of color cards ->
            CardColor.value color <= CardColor.value other)).
Proof.
  intros Hcol. rewrite (most_held_color_eq cards Hcol).
  destruct (max_by_count_four (held_of CardColor.RED cards)
              (held_of CardColor.BLUE cards) (held_of CardColor.GREEN cards)
              (held_of CardColor.YELLOW cards))
    as (color & count & Hmax & Hin & Hbest).
  exists color. split; [exact Hmax |].
  assert (count = held_of color cards /\ color <> CardColor.WILD)
    as [-> Hnw].
  { destruct Hin as [[= <- <-] | [[= <- <-] | [[= <- <-] | [[= <- <-] | []]]]];
      split; solve [reflexivity | discriminate]. }
  split; [exact Hnw |].
  intros other Hother. apply Hbest.
  unfold four_counts. destruct other; cbn; solve [tauto | congruence].
Qed.

(** For a hand whose non-wild cards have a colour other than [WILD] (any
    hand of constructor-made cards), the computation of [choose_color]
    returns one of [RED], [BLUE], [GREEN], [YELLOW], never [WILD]: a
    colour borne by as many non-wild cards of the hand as any of the four,
    and among such colours the first in that order.  If a non-wild card of
    colour [WILD] is held, it raises [KeyError] or returns as above. *)
Theorem most_held_color_is_concrete (cards : list Card.t) :
  (forall c, In c cards -> Card.is_wild c = false ->
             Card.color c <> CardColor.WILD) ->
  exists color,
    most_held_color cards = Return color
    /\ color <> CardColor.WILD
    /\ (forall other, other <> CardColor.WILD ->
        held_of other cards <= held_of color cards
        /\ (held_of other cards = held_of color cards ->
            CardColor.value color <= CardColor.value other)).
Proof. apply most_held_color_returns. Qed.
End BotColor.

Section BotSelection.
Variable top : Card.t.
Variable current_color : option CardColor.t.

(** With a top card at hand, the bots' legality test is [can_play_on]. *)
Lemma can_play_on_known_some (self : Card.t) :
  can_play_on_known self (Some top) current_color
  = Return (Card.can_play_on self top current_color).
Proof.
  unfold can_play_on_known, Card.can_play_on, color_or.
  destruct (Card.is_wild self); [reflexivity |].
  destruct current_color as [c |]; [destruct (CardColor.truthy c) |];
    destruct (CardColor.eqb (Card.color self) _); try reflexivity;
    destruct (CardLabel.eqb (Card.label self) (Card.label top)
              && negb (Card.is_wild top)); reflexivity.
Qed.

Lemma select_from (selections found : list (Z * Card.t)) :
  for_in selections
    (fun selection =>
       match can_play_on_known (snd selection) (Some top) current_color with
       | Raise e => raise e
       | Return playable =>
           when playable (modify (fun found => found ++ [selection]))
       end) found
  = (Return tt,
     found ++ filter (fun selection =>
                        Card.can_play_on (snd selection) top current_color)
                selections).
Proof.
  revert found. induction selections as [| sel rest IH]; intros found.
  - cbn. now rewrite app_nil_r.
  - cbn [for_in filter]. rewrite can_play_on_known_some.
    destruct (Card.can_play_on (snd sel) top current_color).
    + erewrite bind_returns by reflexivity. rewrite IH.
      now rewrite <- app_assoc.
    + erewrite bind_returns by reflexivity. apply IH.
Qed.

Lemma valid_selections_some (cards : list Card.t) :
  valid_selections cards (Some top) current_color
  = Return (filter (fun selection =>
                      Card.can_play_on (snd selection) top current_color)
              (enumerate cards)).
Proof. unfold valid_selections. now rewrite select_from. Qed.
End BotSelection.

Section BotLists.

Lemma enumerate_snd (cards : list Card.t) : map snd (enumerate cards) = cards.
Proof.
  unfold enumerate. generalize 0%nat.
  induction cards as [| c cards IH]; intros start; [reflexivity |].
  cbn [length seq map combine snd]. f_equal. apply IH.
Qed.

Lemma filter_snd (p : Card.t -> bool) (selections : list (Z * Card.t)) :
  map snd (filter (fun selection => p (snd selection)) selections)
  = filter p (map snd selections).
Proof.
  induction selections as [| sel rest IH]; [reflexivity |].
  cbn [filter map]. destruct (p (snd sel)); cbn [map]; now rewrite IH.
Qed.

Lemma selected_cards (p : Card.t -> bool) (cards : list Card.t) :
  map snd (filter (fun selection => p (snd selection)) (enumerate cards))
  = filter p cards.
Proof. now rewrite filter_snd, enumerate_snd. Qed.

Lemma selected_in_hand (p : Card.t -> bool) (cards : list Card.t)
  (selection : Z * Card.t) :
  In selection (filter (fun selection => p (snd selection)) (enumerate cards)) ->
  In (snd selection) cards /\ p (snd selection) = true.
Proof.
  intros Hin. apply (in_map snd) in Hin. rewrite selected_cards in Hin.
  now apply filter_In in Hin.
Qed.

Lemma filter_filter_snd (p w : Card.t -> bool) (selections : list (Z * Card.t)) :
  (forall c, w c = true -> p c = true) ->
  filter (fun selection => w (snd selection))
    (filter (fun selection => p (snd selection)) selections)
  = filter (fun selection => w (snd selection)) selections.
Proof.
  intros Hwp. induction selections as [| sel rest IH]; [reflexivity |].
  cbn [filter]. destruct (p (snd sel)) eqn:Hp; cbn [filter].
  - destruct (w (snd sel)); now rewrite IH.
  - destruct (w (snd sel)) eqn:Hw; [| exact IH].
    rewrite (Hwp _ Hw) in Hp. discriminate Hp.
Qed.

Lemma find_is_first (p : Card.t -> bool) (cards : list Card.t) :
  find p cards = hd_error (filter p cards).
Proof.
  induction cards as [| c cards IH]; [reflexivity |].
  cbn [find filter]. destruct (p c); [reflexivity | exact IH].
Qed.

Lemma held_card_can_be_played (p : Player.t) (card : Card.t)
  (new_color : option CardColor.t) :
  In card (Player.hand p) ->
  exists p',
    Player.play_card card new_color p
    = (Return (PlayerAction.mk (Some card) new_color false false), p').
Proof.
  intros Hin.
  assert (Player.contains card (Player.hand p) = true) as Hheld.
  { unfold Player.contains. apply existsb_exists. exists card.
    split; [exact Hin |]. unfold Card.eqb.
    now rewrite CardColor_eqb_refl, CardLabel_eqb_refl. }
  destruct (list_remove_first card (Player.hand p) Hheld)
    as (before & held & rest & _ & _ & _ & Hrm).
  eexists. apply (play_card_removed p card new_color _ Hrm).
Qed.

Lemma constructed_colors (cards : list Card.t) :
  Forall Card.constructed cards ->
  forall c, In c cards -> Card.is_wild c = false ->
            Card.color c <> CardColor.WILD.
Proof.
  intros Hall c Hin Hwild Hcolor. rewrite Forall_forall in Hall.
  destruct (constructed_is_wild c (Hall c Hin)) as [_ Hiff].
  apply Hiff in Hcolor. congruence.
Qed.
End BotLists.

Section BotChoice.
Variable randbelow : nat -> nat.
Hypothesis randbelow_below : forall n, (0 < n)%nat -> (randbelow n < n)%nat.

Lemma choice_picks {A} (seq : list A) :
  seq <> [] -> exists x, choice randbelow seq = Return x /\ In x seq.
Proof.
  intros Hne. unfold choice.
  destruct (nth_error seq (randbelow (length seq))) as [x |] eqn:Hnth.
  - exists x. split; [reflexivity |]. now apply nth_error_In in Hnth.
  - apply nth_error_None in Hnth.
    assert (0 < length seq)%nat
      by (destruct seq; [contradiction | cbn; lia]).
    pose proof (randbelow_below (length seq) H). lia.
Qed.
End BotChoice.


Section WildFirstBotFacts.
Import WildFirstBot.
Variable randbelow : nat -> nat.
Hypothesis randbelow_below : forall n, (0 < n)%nat -> (randbelow n < n)%nat.

Lemma wild_is_playable (c top : Card.t) (cc : option CardColor.t) :
  Card.is_wild c = true -> Card.can_play_on c top cc = true.
Proof. unfold Card.can_play_on. now intros ->. Qed.

Lemma first_bot_color (b : t) (w : Card.t) :
  Forall Card.constructed (Player.hand (player b)) ->
  exists color, choose_color w b = (Return color, b)
                /\ color <> CardColor.WILD.
Proof.
  intros Hall.
  destruct (most_held_color_returns _ (constructed_colors _ Hall))
    as (color & Hcolor & Hnw & _).
  exists color. split; [| exact Hnw].
  unfold choose_color, bind, get. now rewrite Hcolor.
Qed.

Lemma first_bot_plays (b : t) (card : Card.t) (new_color : option CardColor.t) :
  In card (Player.hand (player b)) ->
  exists p',
    Player.play_card card new_color (player b)
    = (Return (PlayerAction.mk (Some card) new_color false false), p')
    /\ inherited (Player.play_card card new_color) b
       = (Return (PlayerAction.mk (Some card) new_color false false),
          mk p' (_top_card b) (_current_color b)).
Proof.
  intros Hin.
  destruct (held_card_can_be_played (player b) card new_color Hin)
    as (p' & Hplay).
  exists p'. split; [exact Hplay |]. unfold inherited. now rewrite Hplay.
Qed.

(** Once told of a top card, and holding constructor-made cards,
    [WildFirstBot.choose_action] returns an action that [is_valid]
    accepts and that names a colour exactly when it plays a wild card.
    It draws exactly when no card of the hand can be played, and is then
    unchanged; a card it plays was in the hand, can be played on the top
    card, and is removed by [play_card]; and when the hand holds a wild
    card it plays the first one. *)
Theorem wild_first_bot_plays_legally (b : WildFirstBot.t) (top : Card.t) :
  _top_card b = Some top ->
  Forall Card.constructed (Player.hand (player b)) ->
  exists action b',
    choose_action randbelow b = (Return action, b')
    /\ PlayerAction.is_valid action = true
    /\ claimed_valid action = true
    /\ _top_card b' = Some top
    /\ _current_color b' = _current_color b
    /\ (PlayerAction.draw_card action = true <->
        forall c, In c (Player.hand (player b)) ->
                  Card.can_play_on c top (_current_color b) = false)
    /\ (PlayerAction.draw_card action = true -> b' = b)
    /\ (forall card, PlayerAction.card action = Some card ->
        In card (Player.hand (player b))
        /\ Card.can_play_on card top (_current_color b) = true
        /\ Player.play_card card (PlayerAction.new_color action) (player b)
           = (Return action, player b'))
    /\ ((exists c, In c (Player.hand (player b)) /\ Card.is_wild c = true) ->
        PlayerAction.card action = find Card.is_wild (Player.hand (player b))).
Proof.
  intros Htop Hall. destruct b as [p t cc]. cbn in Htop, Hall. subst t.
  cbn [player _top_card _current_color].
  assert (map snd (filter (fun sel => Card.can_play_on (snd sel) top cc)
                     (enumerate (Player.hand p)))
          = filter (fun c => Card.can_play_on c top cc) (Player.hand p)) as Hcards
    by apply (selected_cards (fun c => Card.can_play_on c top cc)).
  assert (forall sel,
            In sel (filter (fun sel => Card.can_play_on (snd sel) top cc)
                      (enumerate (Player.hand p))) ->
            In (snd sel) (Player.hand p) /\ Card.can_play_on (snd sel) top cc = true)
    as Hsel
    by (intros sel;
        apply (selected_in_hand (fun c => Card.can_play_on c top cc))).
  assert (filter (fun sel => Card.is_wild (snd sel))
            (filter (fun sel => Card.can_play_on (snd sel) top cc)
               (enumerate (Player.hand p)))
          = filter (fun sel => Card.is_wild (snd sel))
              (enumerate (Player.hand p))) as Hwilds
    by (apply (filter_filter_snd (fun c => Card.can_play_on c top cc));
        intros c; apply wild_is_playable).
  unfold choose_action. erewrite bind_returns by reflexivity.
  cbn [player _top_card _current_color]. rewrite valid_selections_some.
  destruct (filter (fun sel => Card.can_play_on (snd sel) top cc)
              (enumerate (Player.hand p))) as [| v vs] eqn:Hvalid.
  - (* nothing can be played *)
    assert (forall c, In c (Player.hand p) -> Card.can_play_on c top cc = false) as Hnone.
    { intros c Hin. destruct (Card.can_play_on c top cc) eqn:Hp; [| reflexivity].
      assert (In c (filter (fun c => Card.can_play_on c top cc) (Player.hand p))) as Hc
        by (apply filter_In; now split).
      rewrite <- Hcards in Hc. destruct Hc. }
    eexists. eexists. split; [reflexivity |].
    cbn [PlayerAction.draw_card PlayerAction.card PlayerAction.new_color].
    repeat match goal with |- _ /\ _ => split end; try reflexivity.
    + split; [intros _; exact Hnone | reflexivity].
    + intros card [=].
    + intros (c & Hin & Hw).
      pose proof (wild_is_playable c top cc Hw) as Hp.
      rewrite (Hnone c Hin) in Hp. discriminate Hp.
  - destruct (filter (fun sel => Card.is_wild (snd sel)) (v :: vs))
      as [| [index card] ws] eqn:Hw.
    + (* no wild card: a random playable card *)
      destruct (choice_picks randbelow randbelow_below (v :: vs))
        as ([index card] & Hchoice & Hin); [discriminate |].
      rewrite Hchoice.
      destruct (Hsel _ Hin) as [Hhand Hplayable]. cbn [snd] in *.
      assert (Card.is_wild card = false) as Hnw.
      { destruct (Card.is_wild card) eqn:Hwild; [| reflexivity].
        assert (In (index, card)
                  (filter (fun sel => Card.is_wild (snd sel)) (v :: vs)))
          as Hc by (apply filter_In; now split).
        rewrite Hw in Hc. destruct Hc. }
      destruct (first_bot_plays (mk p (Some top) cc) card None Hhand)
        as (p' & Hplay & Hinh).
      cbn [player _top_card _current_color] in Hplay, Hinh.
      eexists. eexists. split; [exact Hinh |].
      cbn [PlayerAction.draw_card PlayerAction.card PlayerAction.new_color
           player _top_card _current_color].
      repeat match goal with |- _ /\ _ => split end; try reflexivity.
      * unfold claimed_valid. cbn. now rewrite Hnw.
      * split; [discriminate |]. intros Hnone.
        rewrite (Hnone card Hhand) in Hplayable. discriminate Hplayable.
      * discriminate.
      * intros card' [= <-]. repeat split; assumption.
      * intros (c & Hc & Hwild). exfalso.
        assert (In c (filter Card.is_wild (Player.hand p))) as Hcw
          by (apply filter_In; now split).
        rewrite <- (selected_cards Card.is_wild), <- Hwilds in Hcw.
        destruct Hcw.
    + (* the first wild card *)
      assert (In (index, card) (v :: vs) /\ Card.is_wild card = true)
        as [Hin Hwild].
      { assert (In (index, card)
                  (filter (fun sel => Card.is_wild (snd sel)) (v :: vs)))
          as Hc by (rewrite Hw; now left).
        apply filter_In in Hc. exact Hc. }
      destruct (Hsel _ Hin) as [Hhand Hplayable]. cbn [snd] in *.
      rewrite Hwild.
      destruct (first_bot_color (mk p (Some top) cc) card Hall)
        as (color & Hcolor & Hconcrete).
      erewrite bind_returns
        by (erewrite bind_returns by exact Hcolor; reflexivity).
      destruct (first_bot_plays (mk p (Some top) cc) card (Some color) Hhand)
        as (p' & Hplay & Hinh).
      cbn [player _top_card _current_color] in Hplay, Hinh.
      eexists. eexists. split; [exact Hinh |].
      cbn [PlayerAction.draw_card PlayerAction.card PlayerAction.new_color
           player _top_card _current_color].
      repeat match goal with |- _ /\ _ => split end; try reflexivity.
      * unfold claimed_valid. cbn. now rewrite Hwild.
      * split; [discriminate |]. intros Hnone.
        rewrite (Hnone card Hhand) in Hplayable. discriminate Hplayable.
      * discriminate.
      * intros card' [= <-]. repeat split; assumption.
      * intros _. rewrite find_is_first.
        rewrite <- (selected_cards Card.is_wild), <- Hwilds.
        reflexivity.
Qed.
End WildFirstBotFacts.

Section WildLastBotFacts.
Import WildLastBot.
Variable randbelow : nat -> nat.
Hypothesis randbelow_below : forall n, (0 < n)%nat -> (randbelow n < n)%nat.

Lemma last_bot_new_color (b : t) (card : Card.t) :
  Forall Card.constructed (Player.hand (player b)) ->
  exists new_color,
    (if Card.is_wild card
     then (color <- choose_color card ;; ret (Some color))
     else ret None) b = (Return new_color, b)
    /\ Bool.eqb (negb (PlayerAction.is_none new_color)) (Card.is_wild card)
       = true.
Proof.
  intros Hall. destruct (Card.is_wild card).
  - destruct (most_held_color_returns _ (constructed_colors _ Hall))
      as (color & Hcolor & _).
    exists (Some color). split; [| reflexivity].
    unfold choose_color, bind, get. now rewrite Hcolor.
  - exists None. split; reflexivity.
Qed.

Lemma last_bot_plays (b : t) (card : Card.t) (new_color : option CardColor.t) :
  In card (Player.hand (player b)) ->
  exists p',
    Player.play_card card new_color (player b)
    = (Return (PlayerAction.mk (Some card) new_color false false), p')
    /\ inherited (Player.play_card card new_color) b
       = (Return (PlayerAction.mk (Some card) new_color false false),
          mk p' (_top_card b) (_current_color b)).
Proof.
  intros Hin.
  destruct (held_card_can_be_played (player b) card new_color Hin)
    as (p' & Hplay).
  exists p'. split; [exact Hplay |]. unfold inherited. now rewrite Hplay.
Qed.

Lemma last_bot_has_uno (b : t) :
  inherited Player.has_uno b
  = (Return (Z.of_nat (length (Player.hand (player b))) =? 1), b).
Proof. destruct b. reflexivity. Qed.

(** Once told of a top card, and holding constructor-made cards,
    [WildLastBot.choose_action] returns an action that [is_valid] accepts
    and that names a colour exactly when it plays a wild card.  A card it
    plays was in the hand, can be played on the top card, and is removed
    by [play_card]; it draws when nothing can be played, and is unchanged
    when it draws.  With one card left it plays that card if it can.
    Otherwise it plays a non-wild card whenever one can be played, and
    plays a wild card only when at least two cards can be played and all
    of them are wild. *)
Theorem wild_last_bot_saves_wilds (b : WildLastBot.t) (top : Card.t) :
  _top_card b = Some top ->
  Forall Card.constructed (Player.hand (player b)) ->
  exists action b',
    choose_action randbelow b = (Return action, b')
    /\ PlayerAction.is_valid action = true
    /\ claimed_valid action = true
    /\ _top_card b' = Some top
    /\ _current_color b' = _current_color b
    /\ (PlayerAction.draw_card action = true -> b' = b)
    /\ (forall card, PlayerAction.card action = Some card ->
        In card (Player.hand (player b))
        /\ Card.can_play_on card top (_current_color b) = true
        /\ Player.play_card card (PlayerAction.new_color action) (player b)
           = (Return action, player b'))
    /\ ((forall c, In c (Player.hand (player b)) ->
                   Card.can_play_on c top (_current_color b) = false) ->
        PlayerAction.draw_card action = true)
    /\ (length (Player.hand (player b)) = 1%nat ->
        (exists c, In c (Player.hand (player b))
                   /\ Card.can_play_on c top (_current_color b) = true) ->
        PlayerAction.draw_card action = false)
    /\ (length (Player.hand (player b)) <> 1%nat ->
        (exists c, In c (Player.hand (player b))
                   /\ Card.can_play_on c top (_current_color b) = true
                   /\ Card.is_wild c = false) ->
        exists card, PlayerAction.card action = Some card
                     /\ Card.is_wild card = false)
    /\ (length (Player.hand (player b)) <> 1%nat ->
        forall card, PlayerAction.card action = Some card ->
        Card.is_wild card = true ->
        (forall c, In c (Player.hand (player b)) ->
                   Card.can_play_on c top (_current_color b) = true ->
                   Card.is_wild c = true)
        /\ 2 <= count_where (fun c => Card.can_play_on c top (_current_color b))
                  (Player.hand (player b))).
Proof.
  intros Htop Hall. destruct b as [p t cc]. cbn in Htop, Hall. subst t.
  cbn [player _top_card _current_color].
  assert (map snd (filter (fun sel => Card.can_play_on (snd sel) top cc)
                     (enumerate (Player.hand p)))
          = filter (fun c => Card.can_play_on c top cc) (Player.hand p))
    as Hcards by apply (selected_cards (fun c => Card.can_play_on c top cc)).
  assert (forall sel,
            In sel (filter (fun sel => Card.can_play_on (snd sel) top cc)
                      (enumerate (Player.hand p))) ->
            In (snd sel) (Player.hand p)
            /\ Card.can_play_on (snd sel) top cc = true)
    as Hsel
    by (intros sel;
        apply (selected_in_hand (fun c => Card.can_play_on c top cc))).
  assert (forall c, In c (Player.hand p) ->
                    Card.can_play_on c top cc = true ->
                    In c (map snd (filter (fun sel =>
                                             Card.can_play_on (snd sel) top cc)
                                     (enumerate (Player.hand p)))))
    as Hback by (intros c Hin Hp; rewrite Hcards; apply filter_In; now split).
  unfold choose_action.
  erewrite bind_returns by apply last_bot_has_uno.
  erewrite bind_returns by reflexivity.
  cbn [player _top_card _current_color]. rewrite valid_selections_some.
  assert ((Z.of_nat (length (Player.hand p)) =? 1) = true
          <-> length (Player.hand p) = 1%nat) as Huno
    by (rewrite Z.eqb_eq; lia).
  destruct (filter (fun sel => Card.can_play_on (snd sel) top cc)
              (enumerate (Player.hand p))) as [| [index card] vs] eqn:Hvalid.
  - (* nothing can be played *)
    eexists. eexists. split; [reflexivity |].
    cbn [PlayerAction.draw_card PlayerAction.card PlayerAction.new_color].
    repeat match goal with |- _ /\ _ => split end; try reflexivity.
    + intros card [=].
    + intros _ (c & Hin & Hp). destruct (Hback c Hin Hp).
    + intros _ (c & Hin & Hp & _). destruct (Hback c Hin Hp).
    + intros _ card [=].
  - destruct (Hsel (index, card) (or_introl eq_refl)) as [Hhand Hplayable].
    cbn [snd] in Hhand, Hplayable.
    destruct (Z.of_nat (length (Player.hand p)) =? 1) eqn:Hone.
    + (* one card left: it is played *)
      destruct (last_bot_new_color (mk p (Some top) cc) card Hall)
        as (new_color & Hcolor & Hrule).
      erewrite bind_returns by exact Hcolor.
      destruct (last_bot_plays (mk p (Some top) cc) card new_color Hhand)
        as (p' & Hplay & Hinh).
      cbn [player _top_card _current_color] in Hplay, Hinh.
      eexists. eexists. split; [exact Hinh |].
      cbn [PlayerAction.draw_card PlayerAction.card PlayerAction.new_color
           player _top_card _current_color].
      repeat match goal with |- _ /\ _ => split end; try reflexivity.
      * exact Hrule.
      * discriminate.
      * intros card' [= <-]. repeat split; assumption.
      * intros Hnone. rewrite (Hnone card Hhand) in Hplayable.
        discriminate Hplayable.
      * intros Hlen. exfalso. apply Hlen. now apply Huno.
      * intros Hlen. exfalso. apply Hlen. now apply Huno.
    + assert (length (Player.hand p) <> 1%nat) as Hmany
        by (intros Hlen; apply Huno in Hlen; discriminate Hlen).
      assert (map snd (filter (fun sel => negb (Card.is_wild (snd sel)))
                         ((index, card) :: vs))
              = filter (fun c => negb (Card.is_wild c))
                  (filter (fun c => Card.can_play_on c top cc)
                     (Player.hand p))) as Hnon
        by (rewrite <- Hcards;
            apply (filter_snd (fun c => negb (Card.is_wild c))));
      destruct (filter (fun sel => negb (Card.is_wild (snd sel)))
                  ((index, card) :: vs)) as [| nv nvs] eqn:Hnw.
      * (* every playable card is wild *)
        assert (forall c, In c (Player.hand p) ->
                          Card.can_play_on c top cc = true ->
                          Card.is_wild c = true) as Hallwild.
        { intros c Hin Hp. destruct (Card.is_wild c) eqn:Hw; [reflexivity |].
          assert (In c (filter (fun c => negb (Card.is_wild c))
                          (filter (fun c => Card.can_play_on c top cc)
                             (Player.hand p)))) as Hc
            by (apply filter_In; split;
                [apply filter_In; now split | now rewrite Hw]).
          rewrite <- Hnon in Hc. destruct Hc. }
        destruct (1 <? Z.of_nat (length ((index, card) :: vs))) eqn:Htwo.
        -- destruct (choice_picks randbelow randbelow_below
                       ((index, card) :: vs))
             as ([index' card'] & Hchoice & Hin); [discriminate |].
           rewrite Hchoice.
           destruct (Hsel _ Hin) as [Hhand' Hplayable'].
           cbn [snd] in Hhand', Hplayable'.
           destruct (last_bot_new_color (mk p (Some top) cc) card' Hall)
             as (new_color & Hcolor & Hrule).
           erewrite bind_returns by exact Hcolor.
           destruct (last_bot_plays (mk p (Some top) cc) card' new_color
                       Hhand') as (p' & Hplay & Hinh).
           cbn [player _top_card _current_color] in Hplay, Hinh.
           eexists. eexists. split; [exact Hinh |].
           cbn [PlayerAction.draw_card PlayerAction.card
                PlayerAction.new_color player _top_card _current_color].
           repeat match goal with |- _ /\ _ => split end; try reflexivity.
           ++ exact Hrule.
           ++ discriminate.
           ++ intros c [= <-]. repeat split; assumption.
           ++ intros Hnone. rewrite (Hnone card Hhand) in Hplayable.
              discriminate Hplayable.
           ++ intros _ (c & Hin' & Hp & Hw).
              rewrite (Hallwild c Hin' Hp) in Hw. discriminate Hw.
           ++ intros _ c [= <-] _. split; [exact Hallwild |].
              unfold count_where. rewrite <- Hcards, length_map.
              apply Z.ltb_lt in Htwo. lia.
        -- eexists. eexists. split; [reflexivity |].
           cbn [PlayerAction.draw_card PlayerAction.card
                PlayerAction.new_color].
           repeat match goal with |- _ /\ _ => split end; try reflexivity.
           ++ intros c [=].
           ++ intros Hlen. contradiction.
           ++ intros _ (c & Hin' & Hp & Hw).
              rewrite (Hallwild c Hin' Hp) in Hw. discriminate Hw.
           ++ intros _ c [=].
      * (* a random playable card that is not wild *)
        destruct (choice_picks randbelow randbelow_below (nv :: nvs))
          as ([index' card'] & Hchoice & Hin); [discriminate |].
        rewrite Hchoice.
        assert (In (index', card')
                  (filter (fun sel => negb (Card.is_wild (snd sel)))
                     ((index, card) :: vs))) as Hin'
          by (rewrite Hnw; exact Hin).
        apply filter_In in Hin' as [Hin' Hw']. cbn [snd] in Hw'.
        apply negb_true_iff in Hw'.
        destruct (Hsel _ Hin') as [Hhand' Hplayable'].
        cbn [snd] in Hhand', Hplayable'.
        destruct (last_bot_plays (mk p (Some top) cc) card' None Hhand')
          as (p' & Hplay & Hinh).
        cbn [player _top_card _current_color] in Hplay, Hinh.
        eexists. eexists. split; [exact Hinh |].
        cbn [PlayerAction.draw_card PlayerAction.card
             PlayerAction.new_color player _top_card _current_color].
        repeat match goal with |- _ /\ _ => split end; try reflexivity.
        -- unfold claimed_valid. cbn. now rewrite Hw'.
        -- discriminate.
        -- intros c [= <-]. repeat split; assumption.
        -- intros Hnone. rewrite (Hnone card Hhand) in Hplayable.
           discriminate Hplayable.
        -- intros _ _. exists card'. now split.
        -- intros _ c [= <-] Hw. rewrite Hw in Hw'. discriminate Hw'.
Qed.
End WildLastBotFacts.

(** ** Runs of the bots on a small hand *)

Lemma most_held_color_is_concrete_witness :
  exists color,
    most_held_color [red_five; blue_seven; wild_card; blue_five] = Return color
    /\ color <> CardColor.WILD
    /\ (forall other, other <> CardColor.WILD ->
        held_of other [red_five; blue_seven; wild_card; blue_five]
        <= held_of color [red_five; blue_seven; wild_card; blue_five]
        /\ (held_of other [red_five; blue_seven; wild_card; blue_five]
            = held_of color [red_five; blue_seven; wild_card; blue_five] ->
            CardColor.value color <= CardColor.value other)).
Proof.
  apply (most_held_color_is_concrete
           [red_five; blue_seven; wild_card; blue_five]).
  intros c [<- | [<- | [<- | [<- | []]]]] Hwild;
    solve [discriminate Hwild | discriminate].
Defined.

Lemma wild_first_bot_plays_legally_witness :
  exists action b',
    WildFirstBot.choose_action (fun _ => 0%nat)
      (WildFirstBot.mk alice (Some blue_five) None)
    = (Return action, b')
    /\ PlayerAction.is_valid action = true
    /\ claimed_valid action = true.
Proof.
  destruct (wild_first_bot_plays_legally (fun _ => 0%nat) (fun n Hn => Hn)
              (WildFirstBot.mk alice (Some blue_five) None) blue_five)
    as (action & b' & Hrun & Hvalid & Hclaimed & _).
  - reflexivity.
  - repeat constructor; apply constructedb_sound; reflexivity.
  - exists action, b'. repeat split; assumption.
Defined.

Lemma wild_last_bot_saves_wilds_witness :
  exists action b',
    WildLastBot.choose_action (fun _ => 0%nat)
      (WildLastBot.mk alice (Some blue_five) None)
    = (Return action, b')
    /\ PlayerAction.is_valid action = true
    /\ claimed_valid action = true.
Proof.
  destruct (wild_last_bot_saves_wilds (fun _ => 0%nat) (fun n Hn => Hn)
              (WildLastBot.mk alice (Some blue_five) None) blue_five)
    as (action & b' & Hrun & Hvalid & Hclaimed & _).
  - reflexivity.
  - repeat constructor; apply constructedb_sound; reflexivity.
  - exists action, b'. repeat split; assumption.
Defined.

(** ** A bot that was never told of the top card *)

Section BotWithoutTopCard.

Lemma can_play_on_unknown (self : Card.t) (current_color : option CardColor.t) :
  can_play_on_known self None current_color
  = if Card.is_wild self
       || (color_truthy current_color
           && CardColor.eqb (Card.color self)
                (color_or current_color CardColor.RED))
    then Return true
    else Raise AttributeError.
Proof.
  unfold can_play_on_known, color_truthy, color_or.
  destruct (Card.is_wild self); [reflexivity |].
  destruct current_color as [c |]; [| reflexivity].
  destruct (CardColor.truthy c); [| reflexivity].
  cbn [orb andb]. destruct (CardColor.eqb (Card.color self) c); reflexivity.
Qed.

Lemma select_without_top (selections found : list (Z * Card.t)) :
  (exists selection, In selection selections
                     /\ Card.is_wild (snd selection) = false) ->
  exists found',
    for_in selections
      (fun selection =>
         match can_play_on_known (snd selection) None None with
         | Raise e => raise e
         | Return playable =>
             when playable (modify (fun found => found ++ [selection]))
         end) found
    = (Raise AttributeError, found').
Proof.
  revert found. induction selections as [| sel rest IH]; intros found.
  - intros (selection & [] & _).
  - intros (selection & Hin & Hnw). cbn [for_in].
    rewrite can_play_on_unknown. cbn [color_truthy andb].
    rewrite orb_false_r.
    destruct (Card.is_wild (snd sel)) eqn:Hw.
    + destruct Hin as [-> | Hin]; [congruence |].
      erewrite bind_returns by reflexivity.
      apply IH. now exists selection.
    + eexists. reflexivity.
Qed.

Lemma valid_selections_without_top (cards : list Card.t) :
  (exists c, In c cards /\ Card.is_wild c = false) ->
  valid_selections cards None None = Raise AttributeError.
Proof.
  intros (c & Hin & Hnw). unfold valid_selections.
  destruct (select_without_top (enumerate cards) []) as (found' & ->);
    [| reflexivity].
  rewrite <- (enumerate_snd cards) in Hin. apply in_map_iff in Hin.
  destruct Hin as (selection & <- & Hin). now exists selection.
Qed.

(** Asked about a card while the top card is still [None], the bots'
    legality test never answers no: it answers yes for a wild card and for
    a card of the colour in force when that colour is set and is not
    [RED], and raises [AttributeError] otherwise.  Hence a bot that was
    never sent [update_game_state] and holds a card that is not wild
    cannot choose an action: [choose_action] raises [AttributeError] and
    the bot is unchanged. *)
Theorem bot_needs_the_top_card (randbelow : nat -> nat) (p : Player.t)
  (self : Card.t) (current_color : option CardColor.t) :
  can_play_on_known self None current_color <> Return false
  /\ (can_play_on_known self None current_color = Return true <->
      Card.is_wild self = true
      \/ (current_color = Some (Card.color self)
          /\ Card.color self <> CardColor.RED))
  /\ (can_play_on_known self None current_color <> Return true ->
      can_play_on_known self None current_color = Raise AttributeError)
  /\ ((exists c, In c (Player.hand p) /\ Card.is_wild c = false) ->
      WildFirstBot.choose_action randbelow (WildFirstBot.mk p None None)
      = (Raise AttributeError, WildFirstBot.mk p None None)
      /\ WildLastBot.choose_action randbelow (WildLastBot.mk p None None)
         = (Raise AttributeError, WildLastBot.mk p None None)).
Proof.
  rewrite can_play_on_unknown.
  repeat match goal with |- _ /\ _ => split end.
  - destruct (Card.is_wild self || _); discriminate.
  - destruct (Card.is_wild self); cbn [orb]; [split; auto |].
    destruct current_color as [c |]; cbn [color_truthy color_or andb].
    + destruct c, (Card.color self) eqn:Hc; cbn; split;
        solve [ discriminate
              | intros _; right; split; [reflexivity | discriminate]
              | intros [H | [H1 H2]]; congruence ].
    + split; [discriminate | intros [H | [H _]]; discriminate H].
  - destruct (Card.is_wild self || _); [congruence | reflexivity].
  - intros Hheld.
    unfold WildFirstBot.choose_action, WildLastBot.choose_action.
    split.
    + erewrite bind_returns by reflexivity.
      cbn [WildFirstBot.player WildFirstBot._top_card
           WildFirstBot._current_color].
      now rewrite (valid_selections_without_top _ Hheld).
    + erewrite bind_returns by apply last_bot_has_uno.
      erewrite bind_returns by reflexivity.
      cbn [WildLastBot.player WildLastBot._top_card
           WildLastBot._current_color].
      now rewrite (valid_selections_without_top _ Hheld).
Qed.

Lemma bot_needs_the_top_card_witness :
  WildFirstBot.choose_action (fun _ => 0%nat) (WildFirstBot.mk alice None None)
  = (Raise AttributeError, WildFirstBot.mk alice None None).
Proof.
  destruct (bot_needs_the_top_card (fun _ => 0%nat) alice red_five None)
    as (_ & _ & _ & Hraise).
  apply Hraise. exists red_five. split; [right; left; reflexivity | reflexivity].
Defined.
End BotWithoutTopCard.

(** ** The random bot *)

Section RandomBotFacts.
Import RandomBot.
Variable randbelow : nat -> nat.
Variable randint : nat -> Z -> Z -> Z.
Hypothesis randbelow_below : forall n, (0 < n)%nat -> (randbelow n < n)%nat.
Hypothesis randint_between :
  forall k a b, a <= b -> a <= randint k a b <= b.

Lemma list_index_in_range {A} (seq : list A) (index : Z) :
  0 <= index < Z.of_nat (length seq) ->
  exists x, list_index seq index = Return x
            /\ nth_error seq (Z.to_nat index) = Some x /\ In x seq.
Proof.
  intros Hrange. unfold list_index.
  replace (index <? 0) with false by (symmetry; apply Z.ltb_ge; lia).
  cbv zeta iota.
  replace (index <? 0) with false by (symmetry; apply Z.ltb_ge; lia).
  destruct (nth_error seq (Z.to_nat index)) as [x |] eqn:Hnth.
  - exists x. repeat split. now apply nth_error_In in Hnth.
  - apply nth_error_None in Hnth. lia.
Qed.

Lemma random_bot_new_color (b : t) (card : Card.t) :
  exists new_color,
    (if Card.is_wild card
     then (color <- choose_color randbelow card ;; ret (Some color))
     else ret None) b = (Return new_color, b)
    /\ Bool.eqb (negb (PlayerAction.is_none new_color)) (Card.is_wild card)
       = true.
Proof.
  destruct (Card.is_wild card).
  - destruct (choice_picks randbelow randbelow_below
                [CardColor.RED; CardColor.BLUE; CardColor.GREEN;
                 CardColor.YELLOW])
      as (color & Hcolor & _); [discriminate |].
    exists (Some color). split; [| reflexivity].
    unfold choose_color, bind. now rewrite Hcolor.
  - exists None. split; reflexivity.
Qed.

Lemma random_bot_plays (b : t) (card : Card.t)
  (new_color : option CardColor.t) :
  In card (Player.hand (player b)) ->
  exists p',
    Player.play_card card new_color (player b)
    = (Return (PlayerAction.mk (Some card) new_color false false), p')
    /\ inherited (Player.play_card card new_color) b
       = (Return (PlayerAction.mk (Some card) new_color false false),
          mk p' (_top_card b) (_current_color b)).
Proof.
  intros Hin.
  destruct (held_card_can_be_played (player b) card new_color Hin)
    as (p' & Hplay).
  exists p'. split; [exact Hplay |]. unfold inherited. now rewrite Hplay.
Qed.

(** What a pass of the loop does, by the random number it gets. *)
Lemma random_bot_pass (b : t) (top : Card.t) (more calls : nat) :
  _top_card b = Some top ->
  (randint calls 0 (Z.of_nat (length (Player.hand (player b))))
   = Z.of_nat (length (Player.hand (player b)))
   /\ choose_action randbelow randint (S more) calls b
      = Some (Return (PlayerAction.mk None None true false), b))
  \/ (exists card,
        nth_error (Player.hand (player b))
          (Z.to_nat (randint calls 0
                       (Z.of_nat (length (Player.hand (player b))))))
        = Some card
        /\ randint calls 0 (Z.of_nat (length (Player.hand (player b))))
           <> Z.of_nat (length (Player.hand (player b)))
        /\ In card (Player.hand (player b))
        /\ ((Card.can_play_on card top (_current_color b) = false
             /\ choose_action randbelow randint (S more) calls b
                = choose_action randbelow randint more (S calls) b)
            \/ (Card.can_play_on card top (_current_color b) = true
                /\ exists new_color p',
                     Bool.eqb (negb (PlayerAction.is_none new_color))
                       (Card.is_wild card) = true
                     /\ Player.play_card card new_color (player b)
                        = (Return (PlayerAction.mk (Some card) new_color
                                     false false), p')
                     /\ choose_action randbelow randint (S more) calls b
                        = Some (Return (PlayerAction.mk (Some card) new_color
                                          false false),
                                mk p' (Some top) (_current_color b))))).
Proof.
  intros Htop. destruct b as [p t cc]. cbn in Htop. subst t.
  cbn [player _top_card _current_color choose_action].
  pose proof (randint_between calls 0 (Z.of_nat (length (Player.hand p)))
                ltac:(lia)) as Hrange.
  destruct (Z.eqb_spec (randint calls 0 (Z.of_nat (length (Player.hand p))))
              (Z.of_nat (length (Player.hand p)))) as [Heq | Hne].
  - left. split; [exact Heq | reflexivity].
  - right.
    destruct (list_index_in_range (Player.hand p)
                (randint calls 0 (Z.of_nat (length (Player.hand p))))
                ltac:(lia)) as (card & Hindex & Hnth & Hin).
    exists card. rewrite Hindex, can_play_on_known_some.
    repeat split; try assumption.
    destruct (Card.can_play_on card top cc) eqn:Hplayable.
    + right. split; [reflexivity |].
      destruct (random_bot_new_color (mk p (Some top) cc) card)
        as (new_color & Hcolor & Hrule).
      destruct (random_bot_plays (mk p (Some top) cc) card new_color Hin)
        as (p' & Hplay & Hinh).
      cbn [player _top_card _current_color] in Hplay, Hinh.
      exists new_color, p'. repeat split; try assumption.
      f_equal. erewrite bind_returns by exact Hcolor. exact Hinh.
    + left. split; reflexivity.
Qed.

(** Told of a top card, and with [randint] and [randbelow] within their
    bounds, [RandomBot.choose_action] never raises: after any number of
    passes its loop is still running or has returned an action that
    [is_valid] accepts, that names a colour exactly when it plays a wild
    card, and whose card, if any, was in the hand, can be played on the
    top card and has been removed by [play_card]; a draw leaves the bot
    unchanged.  The loop returns at the latest at the first pass whose
    random number is the size of the hand (a draw) or the index of a card
    that can be played. *)
Theorem random_bot_plays_legally (b : RandomBot.t) (top : Card.t)
  (passes calls : nat) :
  _top_card b = Some top ->
  (choose_action randbelow randint passes calls b = None
   \/ exists action b',
        choose_action randbelow randint passes calls b
        = Some (Return action, b')
        /\ PlayerAction.is_valid action = true
        /\ claimed_valid action = true
        /\ _top_card b' = Some top
        /\ _current_color b' = _current_color b
        /\ (PlayerAction.draw_card action = true -> b' = b)
        /\ (forall card, PlayerAction.card action = Some card ->
            In card (Player.hand (player b))
            /\ Card.can_play_on card top (_current_color b) = true
            /\ Player.play_card card (PlayerAction.new_color action) (player b)
               = (Return action, player b')))
  /\ (forall k, (calls <= k < calls + passes)%nat ->
      (randint k 0 (Z.of_nat (length (Player.hand (player b))))
       = Z.of_nat (length (Player.hand (player b)))
       \/ exists card,
            nth_error (Player.hand (player b))
              (Z.to_nat (randint k 0
                           (Z.of_nat (length (Player.hand (player b))))))
            = Some card
            /\ Card.can_play_on card top (_current_color b) = true) ->
      choose_action randbelow randint passes calls b <> None).
Proof.
  intros Htop. revert calls.
  induction passes as [| more IH]; intros calls.
  - split; [left; reflexivity | intros k Hk; lia].
  - destruct (random_bot_pass b top more calls Htop)
      as [[Hdraw Hrun]
         | (card & Hnth & Hne & Hin
            & [[Hno Hrun] | (Hyes & new_color & p' & Hrule & Hplay & Hrun)])].
    + split; [| intros k _ _; rewrite Hrun; discriminate].
      right. eexists. eexists. split; [exact Hrun |].
      repeat match goal with |- _ /\ _ => split end; try reflexivity;
        try assumption.
      intros card [=].
    + rewrite Hrun. destruct (IH (S calls)) as [Hany Hends].
      split; [exact Hany |].
      intros k Hk Hfinal. apply (Hends k); [| exact Hfinal].
      assert (k <> calls) as Hk'.
      { intros ->. destruct Hfinal as [Hlen | (card' & Hnth' & Hyes)];
          [contradiction |].
        rewrite Hnth in Hnth'. injection Hnth' as <-. congruence. }
      lia.
    + split; [| intros k _ _; rewrite Hrun; discriminate].
      right. eexists. eexists. split; [exact Hrun |].
      cbn [PlayerAction.draw_card PlayerAction.card PlayerAction.new_color
           player _top_card _current_color].
      repeat match goal with |- _ /\ _ => split end; try reflexivity.
      * exact Hrule.
      * discriminate.
      * intros card' [= <-]. repeat split; assumption.
Qed.
End RandomBotFacts.

Lemma random_bot_plays_legally_witness :
  RandomBot.choose_action (fun _ => 0%nat) (fun _ a _ => a) 3 0
    (RandomBot.mk alice (Some blue_five) None) <> None.
Proof.
  assert (forall k a b, a <= b -> a <= (fun (_ : nat) (a _ : Z) => a) k a b <= b)
    as Hint by (intros k a b Hab; cbn; lia).
  destruct (random_bot_plays_legally (fun _ => 0%nat) (fun _ a _ => a)
              (fun n Hn => Hn) Hint
              (RandomBot.mk alice (Some blue_five) None) blue_five 3 0 eq_refl)
    as [_ Hends].
  apply (Hends 0%nat); [lia |].
  right. exists blue_seven. split; reflexivity.
Defined.


(** ** Dealing from a new deck *)

Section Dealing.
Variable random_shuffle : nat -> list Card.t -> list Card.t.
Variable num_shuffles : Z -> nat.
Hypothesis random_shuffle_permutes :
  forall i cards, Permutation cards (random_shuffle i cards).

(** Provided each call of [random.shuffle] permutes its list: from a new
    [Deck()], two calls of [draw(7)] return seven cards each and leave 94
    cards; the two hands and the rest of the deck together are the 108
    standard cards, none lost and none repeated; and a player with an
    empty hand who is given the first seven by [add_cards_to_hand] holds
    exactly those seven, sorted. *)
Theorem dealing_conserves_the_deck (p : Player.t) :
  Player.hand p = [] ->
  exists deck first second rest,
    Deck.init random_shuffle num_shuffles true = Return deck
    /\ Deck.draw 7 deck = (Return (Some first), Deck.mk (second ++ rest))
    /\ Deck.draw 7 (Deck.mk (second ++ rest))
       = (Return (Some second), Deck.mk rest)
    /\ length first = 7%nat /\ length second = 7%nat
    /\ Deck.len (Deck.mk rest) = 94
    /\ Permutation standard_cards (first ++ second ++ rest)
    /\ Permutation first
         (Player.hand (after (Player.add_cards_to_hand first) p))
    /\ StronglySorted hand_order
         (Player.hand (after (Player.add_cards_to_hand first) p))
    /\ result Player.get_hand_size (after (Player.add_cards_to_hand first) p)
       = Return 7.
Proof.
  intros Hempty.
  destruct (new_deck_is_standard random_shuffle num_shuffles
              random_shuffle_permutes) as (deck & Hinit & Hperm).
  assert (length (Deck._cards deck) = 108%nat) as Hlen
    by (rewrite <- (Permutation_length Hperm); apply standard_cards_length).
  destruct deck as [cards]. cbn [Deck._cards] in *.
  set (first := firstn 7 cards).
  set (second := firstn 7 (skipn 7 cards)).
  set (rest := skipn 7 (skipn 7 cards)).
  assert (cards = first ++ second ++ rest) as Hsplit
    by (unfold first, second, rest; now rewrite !firstn_skipn).
  assert (length first = 7%nat) as Hfirst
    by (unfold first; apply firstn_length_le; lia).
  assert (length second = 7%nat) as Hsecond
    by (unfold second; apply firstn_length_le; rewrite length_skipn; lia).
  assert (length rest = 94%nat) as Hrest
    by (unfold rest; rewrite !length_skipn; lia).
  exists (Deck.mk cards), first, second, rest.
  repeat match goal with |- _ /\ _ => split end; try assumption.
  - rewrite Hsplit at 1.
    change 7 with (Z.of_nat 7). rewrite <- Hfirst.
    apply draw_front. intros H. rewrite H in Hfirst. discriminate Hfirst.
  - change 7 with (Z.of_nat 7). rewrite <- Hsecond.
    apply draw_front. intros H. rewrite H in Hsecond. discriminate Hsecond.
  - unfold Deck.len. cbn [Deck._cards]. lia.
  - now rewrite <- Hsplit.
  - destruct (added_hand p first) as [Hp _].
    rewrite Hempty in Hp. exact Hp.
  - apply added_hand.
  - destruct (added_hand p first) as [Hp _]. rewrite Hempty in Hp.
    cbn [app] in Hp.
    unfold result, Player.get_hand_size, bind, get, ret. cbn [fst].
    rewrite <- (Permutation_length Hp), Hfirst. reflexivity.
Qed.
End Dealing.

Lemma dealing_conserves_the_deck_witness :
  exists deck first second rest,
    Deck.init (fun _ cards => rev cards) (fun _ => 3%nat) true = Return deck
    /\ Deck.draw 7 deck = (Return (Some first), Deck.mk (second ++ rest))
    /\ Deck.len (Deck.mk rest) = 94.
Proof.
  destruct (dealing_conserves_the_deck (fun _ cards => rev cards)
              (fun _ => 3%nat) (fun _ cards => Permutation_rev cards)
              (Player.init "bob"%string 2) eq_refl)
    as (deck & first & second & rest & Hinit & Hdraw & _ & _ & _ & Hlen & _).
  exists deck, first, second, rest. repeat split; assumption.
Defined.
